(** * ProxyPunch: the NAT-punching and forwarding engine

    A shallow embedding of [client] and [server] of the multi-peer
    generation of proxypunch (the Go file with [addrKey], [mappings] and
    [peers]), and the properties of its relay codec, rendezvous loops and
    forwarding planes; then of [update] and [main], the command line in
    front of them (module [Cli]).

    Conventions.
    - A byte is a [Z] in [0, 256); a datagram payload is a [list Z].
    - An IPv4 address is four bytes, as Go's [[4]byte]; the sockets are all
      opened with network ["udp4"], so every source address is IPv4.
    - [time.Time] is a [Z] (nanoseconds on the monotonic clock) and
      [time.Duration] is a [Z] of nanoseconds; [a.Sub(b)] is [a - b].
    - Go maps are stdpp [gmap]s.
    - Each goroutine is a set of atomic handlers; a run is a schedule (a
      list of events) interleaving them over one shared state. *)

From Stdlib Require Import ZArith Lia String Ascii.
From stdpp Require Import base decidable countable gmap list strings.

Local Open Scope Z_scope.

(** ** Addresses *)

Definition ip4 : Type := Z * Z * Z * Z.

Record UDPAddr := mkUDPAddr { IP : ip4; Port : Z }.

Record addrKey := mkAddrKey { ip : ip4; port : Z }.

#[global] Instance UDPAddr_eq_dec : EqDecision UDPAddr.
Proof. solve_decision. Defined.

#[global] Instance addrKey_eq_dec : EqDecision addrKey.
Proof. solve_decision. Defined.

#[global] Instance addrKey_countable : Countable addrKey.
Proof.
  apply (inj_countable' (fun k => (ip k, port k))
                        (fun p => mkAddrKey (fst p) (snd p))).
  intros []; reflexivity.
Defined.

(** [func (s addrKey) toUDP() *net.UDPAddr] *)
Definition toUDP (s : addrKey) : UDPAddr :=
  {| IP := ip s; Port := port s |}.

(** [func newAddrKey(udp *net.UDPAddr) addrKey]; [To4] is the identity on
    the four-byte form. *)
Definition newAddrKey (udp : UDPAddr) : addrKey :=
  {| ip := IP udp; port := Port udp |}.

(** [a.IP.Equal(b.IP) && a.Port == b.Port] *)
Definition sameAddr (a b : UDPAddr) : bool := bool_decide (a = b).

(** [copy(ip[:], bs)] into a zeroed [[4]byte]. *)
Definition ip_of_bytes (bs : list Z) : ip4 :=
  (nth 0 bs 0, nth 1 bs 0, nth 2 bs 0, nth 3 bs 0).

(** [ip.To4()] as a byte slice. *)
Definition bytes_of_ip (a : ip4) : list Z :=
  let '(a0, a1, a2, a3) := a in [a0; a1; a2; a3].

(** [localIpv4] is 127.0.0.0/8: [Contains] compares the first byte. *)
Definition localIpv4_Contains (a : ip4) : bool :=
  let '(a0, _, _, _) := a in a0 =? 127.

(** [localIpv6] is fc00::/7, a 16-byte network. [IPNet.Contains] first
    takes [To4] of its argument and answers false when the lengths differ,
    so no IPv4 address is in it. *)
Definition localIpv6_Contains (a : ip4) : bool := false.

(** ** Constants *)

Definition millisecond : Z := 1000000.
Definition second : Z := 1000 * millisecond.
Definition flushInterval : Z := 10 * second.
Definition tick : Z := 500 * millisecond.
Definition defaultPort : Z := 41254.
Definition bufferSize : nat := 4096.

(** ** Byte helpers *)

(** Go's [byte(x)] of an [int]. *)
Definition to_byte (x : Z) : Z := Z.land x 255.

(** [binary.BigEndian.Uint16(b)] *)
Definition Uint16 (b : list Z) : Z :=
  Z.lor (Z.shiftl (nth 0 b 0) 8) (nth 1 b 0).

(** [b[lo:hi]] *)
Definition slice (b : list Z) (lo hi : nat) : list Z :=
  take (hi - lo) (drop lo b).

(** [b[i] = x] for [i] in range. *)
Definition store (b : list Z) (i : nat) (x : Z) : list Z := <[i := x]> b.

(** ** Sockets and what a read returns *)

Inductive recv :=
| RecvErr
| RecvOk (payload : list Z) (from : UDPAddr).

(** [n, addr, err := sock.ReadFromUDP(b[off:])] of a datagram [payload]: at
    most [len(b) - off] bytes are stored, from index [off] on.  [read_n] is
    the count [n], [read_into] the buffer after the read. *)
Definition read_n (b : list Z) (off : nat) (payload : list Z) : nat :=
  length (take (length b - off) payload).

Definition read_into (b : list Z) (off : nat) (payload : list Z) : list Z :=
  take off b ++ take (length b - off) payload
         ++ drop (off + read_n b off payload) b.

#[global] Arguments read_n : simpl never.
#[global] Arguments read_into : simpl never.
#[global] Arguments slice : simpl never.
#[global] Arguments store : simpl never.

Inductive sock :=
| Public
| Loopback (id : nat).

#[global] Instance sock_eq_dec : EqDecision sock.
Proof. solve_decision. Defined.

(** Lines written to standard output and standard error. *)
Inductive line :=
| WrongSizeFromRelay (n : Z)
| WrongSizeFromPeer (n : Z)
| WrongSizeFromGameServer (n : Z)
| ConnectedToPeer
| ConnectedAs (a : ip4) (p : Z)
| NewPeerConnected (a : ip4)
| PeerTimeout (a : ip4)
| PeerReadFailed (a : UDPAddr).

(** What a goroutine does to the outside world.  [PeersDelete] records the
    point at which [delete(peers, k)] runs, [Fatal] is [log.Fatal]. *)
Inductive action :=
| WriteToUDP (s : sock) (payload : list Z) (to : UDPAddr)
| Close (s : sock)
| PeersDelete (k : addrKey)
| Stdout (l : line)
| Stderr (l : line)
| Sleep (d : Z)
| Fatal.

#[global] Instance line_eq_dec : EqDecision line.
Proof. solve_decision. Defined.

#[global] Instance action_eq_dec : EqDecision action.
Proof. solve_decision. Defined.

Definition punchPayload : list Z := [0xCD].

Definition zeroAddr : UDPAddr := {| IP := (0, 0, 0, 0); Port := 0 |}.

Definition newBuffer : list Z := replicate bufferSize 0.

(** ** Startup: what the operating system and the resolver answer *)

Record startup := mkStartup {
  bind_default_ok : bool;           (* ListenUDP on [defaultPort] *)
  bind_any_ok : bool;               (* ListenUDP on an ephemeral port *)
  resolved_relay : option UDPAddr;  (* ResolveUDPAddr of [relayHost] *)
  resolved_remote : option ip4      (* ResolveUDPAddr of the remote host *)
}.

(** * The client role *)

Module Client.

Inductive phase := Learning | Forwarding.

Inductive activity := Main | RelayLoop | PunchLoop.

(** The variables of [client], the time, and where each goroutine is.
    [punch_wake = None] until [go func()] of the punch loop has run. *)
Record world := mkWorld {
  clock : Z;
  relayAddr : UDPAddr;
  arg_port : Z;
  remoteAddr : UDPAddr;
  at_phase : phase;
  buffer : list Z;
  foundPeer : bool;
  localAddr : UDPAddr;
  relay_wake : Z;
  punch_wake : option Z
}.

Inductive event :=
| Elapse (d : Z)      (* time passes *)
| RelayTick           (* one iteration of the relay loop *)
| PunchTick           (* one iteration of the punch loop *)
| Read (r : recv).    (* [c.ReadFromUDP] of the main goroutine returns *)

Definition trace := list (activity * action).

(** [relayPayload := append([]byte{byte(port >> 8), byte(port)},
    remoteAddr.IP.To4()...)] *)
Definition relayPayload (p : Z) (remote : ip4) : list Z :=
  [to_byte (Z.shiftr p 8); to_byte p] ++ bytes_of_ip remote.

(** [client(host, port)] up to the first read; [None] is [log.Fatal]. *)
Definition start (s : startup) (p : Z) (now : Z) : option world :=
  if bind_default_ok s || bind_any_ok s then
    match resolved_relay s, resolved_remote s with
    | Some relay, Some remote =>
        Some {| clock := now; relayAddr := relay; arg_port := p;
                remoteAddr := {| IP := remote; Port := p |};
                at_phase := Learning; buffer := newBuffer;
                foundPeer := false; localAddr := zeroAddr;
                relay_wake := now; punch_wake := None |}
    | _, _ => None
    end
  else None.

Definition set_buffer (w : world) (b : list Z) : world :=
  {| clock := clock w; relayAddr := relayAddr w; arg_port := arg_port w;
     remoteAddr := remoteAddr w; at_phase := at_phase w; buffer := b;
     foundPeer := foundPeer w; localAddr := localAddr w;
     relay_wake := relay_wake w; punch_wake := punch_wake w |}.

(** The first [for] loop: one return of [c.ReadFromUDP(buffer)]. *)
Definition learn (w : world) (r : recv) : world * trace :=
  match r with
  | RecvErr => (w, [])
  | RecvOk payload addr =>
      let n := read_n (buffer w) 0 payload in
      let b := read_into (buffer w) 0 payload in
      if negb (sameAddr addr (relayAddr w)) then (set_buffer w b, [])
      else if negb (Z.of_nat n =? 2) then
        (set_buffer w b, [(Main, Stderr (WrongSizeFromRelay (Z.of_nat n)))])
      else
        ({| clock := clock w; relayAddr := relayAddr w;
            arg_port := arg_port w;
            remoteAddr := {| IP := IP (remoteAddr w);
                             Port := Uint16 (slice b 0 2) |};
            at_phase := Forwarding; buffer := b;
            foundPeer := false; localAddr := zeroAddr;
            relay_wake := relay_wake w;
            punch_wake := Some (clock w) |}, [])
  end.

(** The second [for] loop: one return of [c.ReadFromUDP(buffer[1:])]. *)
Definition forward (w : world) (r : recv) : world * trace :=
  match r with
  | RecvErr => (w, [])
  | RecvOk payload addr =>
      let n := read_n (buffer w) 1 payload in
      let b := read_into (buffer w) 1 payload in
      if (length (buffer w) - 1 <? n)%nat then
        (set_buffer w b, [(Main, Stderr (WrongSizeFromPeer (Z.of_nat n)))])
      else if sameAddr addr (relayAddr w) then (set_buffer w b, [])
      else if sameAddr addr (remoteAddr w) then
        let hello : trace :=
          if foundPeer w then [] else [(Main, Stdout ConnectedToPeer)] in
        let deliver : trace :=
          if negb (Z.of_nat n =? 0) && negb (Port (localAddr w) =? 0)
             && (nth 1 b 0 =? 0xCC)
          then [(Main, WriteToUDP Public (slice b 2 (n + 1)) (localAddr w))]
          else [] in
        ({| clock := clock w; relayAddr := relayAddr w;
            arg_port := arg_port w; remoteAddr := remoteAddr w;
            at_phase := at_phase w; buffer := b;
            foundPeer := true; localAddr := localAddr w;
            relay_wake := relay_wake w; punch_wake := punch_wake w |},
         hello ++ deliver)
      else if localIpv4_Contains (IP addr) || localIpv6_Contains (IP addr)
      then
        let b' := store b 0 0xCC in
        ({| clock := clock w; relayAddr := relayAddr w;
            arg_port := arg_port w; remoteAddr := remoteAddr w;
            at_phase := at_phase w; buffer := b';
            foundPeer := foundPeer w; localAddr := addr;
            relay_wake := relay_wake w; punch_wake := punch_wake w |},
         [(Main, WriteToUDP Public (slice b' 0 (n + 1)) (remoteAddr w))])
      else (set_buffer w b, [])
  end.

(** One iteration of the relay goroutine: write, then sleep 500 ms. *)
Definition relay_tick (w : world) : option (world * trace) :=
  if relay_wake w <=? clock w then
    Some ({| clock := clock w; relayAddr := relayAddr w;
             arg_port := arg_port w; remoteAddr := remoteAddr w;
             at_phase := at_phase w; buffer := buffer w;
             foundPeer := foundPeer w; localAddr := localAddr w;
             relay_wake := clock w + tick; punch_wake := punch_wake w |},
          [(RelayLoop,
            WriteToUDP Public
              (relayPayload (arg_port w) (IP (remoteAddr w))) (relayAddr w));
           (RelayLoop, Sleep tick)])
  else None.

(** One iteration of the punch goroutine: write, then sleep 500 ms. *)
Definition punch_tick (w : world) : option (world * trace) :=
  match punch_wake w with
  | Some t =>
      if t <=? clock w then
        Some ({| clock := clock w; relayAddr := relayAddr w;
                 arg_port := arg_port w; remoteAddr := remoteAddr w;
                 at_phase := at_phase w; buffer := buffer w;
                 foundPeer := foundPeer w; localAddr := localAddr w;
                 relay_wake := relay_wake w;
                 punch_wake := Some (clock w + tick) |},
              [(PunchLoop, WriteToUDP Public punchPayload (remoteAddr w));
               (PunchLoop, Sleep tick)])
      else None
  | None => None
  end.

Definition elapse (w : world) (d : Z) : option (world * trace) :=
  if 0 <=? d then
    Some ({| clock := clock w + d; relayAddr := relayAddr w;
             arg_port := arg_port w; remoteAddr := remoteAddr w;
             at_phase := at_phase w; buffer := buffer w;
             foundPeer := foundPeer w; localAddr := localAddr w;
             relay_wake := relay_wake w; punch_wake := punch_wake w |}, [])
  else None.

(** One scheduling step; [None] when the event cannot happen in [w]. *)
Definition step (w : world) (e : event) : option (world * trace) :=
  match e with
  | Elapse d => elapse w d
  | RelayTick => relay_tick w
  | PunchTick => punch_tick w
  | Read r =>
      match at_phase w with
      | Learning => Some (learn w r)
      | Forwarding => Some (forward w r)
      end
  end.

Fixpoint run (w : world) (es : list event) : option (world * trace) :=
  match es with
  | [] => Some (w, [])
  | e :: es' =>
      match step w e with
      | Some (w1, t1) =>
          match run w1 es' with
          | Some (w2, t2) => Some (w2, t1 ++ t2)
          | None => None
          end
      | None => None
      end
  end.

(** The world and the trace a schedule ends with ([w] and nothing when
    the schedule cannot happen). *)
Definition after (w : world) (es : list event) : world :=
  match run w es with Some (w', _) => w' | None => w end.

Definition output (w : world) (es : list event) : trace :=
  match run w es with Some (_, t) => t | None => [] end.

(** The worlds of a run: those a schedule leads to after startup. *)
Definition reachable (w : world) : Prop :=
  ∃ s p now w0 es t, start s p now = Some w0 ∧ run w0 es = Some (w, t).

(** What holds in every world of a run. *)
Definition inv (w : world) : Prop :=
  length (buffer w) = bufferSize
  ∧ (at_phase w = Learning → punch_wake w = None)
  ∧ (at_phase w = Forwarding → is_Some (punch_wake w)).



(** The sources of the datagrams read in a schedule. *)
Definition heard (es : list event) (src : UDPAddr) : Prop :=
  ∃ payload, In (Read (RecvOk payload src)) es.

End Client.

(** * The server role *)

Module Server.

(** [type addrValue struct { c *net.UDPConn; last time.Time }]; the
    connection is named by the number of the [ListenUDP] call that made
    it. *)
Record addrValue := mkAddrValue { c : nat; last : Z }.

(** A per-peer goroutine: the [addrKey], [addr] and [buffer] it closes
    over ([cLocal] is the key under which it is stored). *)
Record task := mkTask {
  t_key : addrKey;
  t_addr : UDPAddr;
  t_buffer : list Z
}.

(** Where the main goroutine is: blocked on [<-chIp], at the top of an
    iteration of the main loop, blocked in [c.ReadFromUDP], or gone with
    the process after [log.Fatal]. *)
Inductive main_pc := WaitIp | AtTop | InRecv | Exited.

#[global] Instance main_pc_eq_dec : EqDecision main_pc.
Proof. solve_decision. Defined.

Inductive activity :=
| Main
| Keepalive
| RelayReceive
| PeerTask (s : nat).

#[global] Instance activity_eq_dec : EqDecision activity.
Proof. solve_decision. Defined.

Record world := mkWorld {
  clock : Z;
  relayAddr : UDPAddr;
  arg_port : Z;
  (* shared by the keepalive and the relay receive goroutines *)
  mappings : gmap addrKey Z;
  (* relay & mappings keepalive goroutine *)
  ka_flushTime : Z;
  ka_wake : Z;
  (* relay receive goroutine *)
  relay_alive : bool;
  ipReceived : bool;
  relay_buffer : list Z;
  (* main goroutine *)
  pc : main_pc;
  buffer : list Z;
  peers : gmap addrKey addrValue;
  flushTime : Z;
  (* per-peer goroutines and their sockets *)
  tasks : gmap nat task;
  next_sock : nat;
  closed : list nat
}.

Inductive event :=
| Elapse (d : Z)               (* time passes *)
| KeepalivePass (busy : Z)     (* one iteration of the keepalive loop,
                                  which takes [busy] before it sleeps *)
| RelayRead (r : recv)         (* [ReadFromUDP] of the relay receive loop *)
| MainWake                     (* [<-chIp] returns *)
| MainTop                      (* top of the main loop, up to the read *)
| MainRead (r : recv) (listen_ok : bool)
                               (* [ReadFromUDP] of the main loop returns;
                                  [listen_ok]: would [ListenUDP] succeed *)
| TaskRead (s : nat) (r : recv).
                               (* [ReadFromUDP] of a per-peer goroutine *)

Definition trace := list (activity * action).

(** [relayPayload := []byte{byte(port >> 8), byte(port)}] *)
Definition relayPayload (p : Z) : list Z :=
  [to_byte (Z.shiftr p 8); to_byte p].

(** [localAddr]: 127.0.0.1 and the port of the hosted application. *)
Definition localAddr (p : Z) : UDPAddr :=
  {| IP := (127, 0, 0, 1); Port := p |}.

(** [server(port)] up to the point where its goroutines are started and
    it blocks on [<-chIp]; [None] is [log.Fatal]. *)
Definition start (s : startup) (p : Z) (now : Z) : option world :=
  if bind_any_ok s then
    match resolved_relay s with
    | Some relay =>
        Some {| clock := now; relayAddr := relay; arg_port := p;
                mappings := ∅; ka_flushTime := now; ka_wake := now;
                relay_alive := true; ipReceived := false;
                relay_buffer := newBuffer;
                pc := WaitIp; buffer := newBuffer; peers := ∅;
                flushTime := now;
                tasks := ∅; next_sock := 0%nat; closed := [] |}
    | None => None
    end
  else None.

Definition set_clock (w : world) (t : Z) : world :=
  {| clock := t; relayAddr := relayAddr w; arg_port := arg_port w;
     mappings := mappings w; ka_flushTime := ka_flushTime w;
     ka_wake := ka_wake w; relay_alive := relay_alive w;
     ipReceived := ipReceived w; relay_buffer := relay_buffer w;
     pc := pc w; buffer := buffer w; peers := peers w;
     flushTime := flushTime w; tasks := tasks w;
     next_sock := next_sock w; closed := closed w |}.

Definition set_keepalive (w : world) (t : Z) (m : gmap addrKey Z)
    (ft wake : Z) : world :=
  {| clock := t; relayAddr := relayAddr w; arg_port := arg_port w;
     mappings := m; ka_flushTime := ft;
     ka_wake := wake; relay_alive := relay_alive w;
     ipReceived := ipReceived w; relay_buffer := relay_buffer w;
     pc := pc w; buffer := buffer w; peers := peers w;
     flushTime := flushTime w; tasks := tasks w;
     next_sock := next_sock w; closed := closed w |}.

Definition set_relay (w : world) (m : gmap addrKey Z) (alive got : bool)
    (b : list Z) : world :=
  {| clock := clock w; relayAddr := relayAddr w; arg_port := arg_port w;
     mappings := m; ka_flushTime := ka_flushTime w;
     ka_wake := ka_wake w; relay_alive := alive;
     ipReceived := got; relay_buffer := b;
     pc := pc w; buffer := buffer w; peers := peers w;
     flushTime := flushTime w; tasks := tasks w;
     next_sock := next_sock w; closed := closed w |}.

Definition set_main (w : world) (l : main_pc) (b : list Z)
    (ps : gmap addrKey addrValue) (ft : Z) : world :=
  {| clock := clock w; relayAddr := relayAddr w; arg_port := arg_port w;
     mappings := mappings w; ka_flushTime := ka_flushTime w;
     ka_wake := ka_wake w; relay_alive := relay_alive w;
     ipReceived := ipReceived w; relay_buffer := relay_buffer w;
     pc := l; buffer := b; peers := ps;
     flushTime := ft; tasks := tasks w;
     next_sock := next_sock w; closed := closed w |}.

Definition set_socks (w : world) (ts : gmap nat task) (next : nat)
    (cl : list nat) : world :=
  {| clock := clock w; relayAddr := relayAddr w; arg_port := arg_port w;
     mappings := mappings w; ka_flushTime := ka_flushTime w;
     ka_wake := ka_wake w; relay_alive := relay_alive w;
     ipReceived := ipReceived w; relay_buffer := relay_buffer w;
     pc := pc w; buffer := buffer w; peers := peers w;
     flushTime := flushTime w; tasks := ts;
     next_sock := next; closed := cl |}.

(** *** The relay & mappings keepalive goroutine *)

(** [for k, v := range mappings { if now.Sub(v) > flushInterval
    { delete(mappings, k) } }] *)
Definition sweep_mappings (now : Z) (m : gmap addrKey Z) : gmap addrKey Z :=
  filter (λ kv : addrKey * Z, ¬ flushInterval < now - kv.2) m.

(** [for k := range mappings { c.WriteToUDP(punchPayload, k.toUDP()) }] *)
Definition punch_all (m : gmap addrKey Z) : trace :=
  (λ kv : addrKey * Z,
     (Keepalive, WriteToUDP Public punchPayload (toUDP kv.1)))
  <$> map_to_list m.

(** One iteration of the loop.  [now] is read once at the top; the
    iteration lasts [busy], and the loop then sleeps for what is left of
    500 ms. *)
Definition keepalive_pass (w : world) (busy : Z) : option (world * trace) :=
  if (ka_wake w <=? clock w) && (0 <=? busy) then
    let now := clock w in
    let due := bool_decide (flushInterval < now - ka_flushTime w) in
    let ft := if due then now else ka_flushTime w in
    let m := if due then sweep_mappings now (mappings w) else mappings w in
    let d := tick - busy in
    let nap : trace := if 0 <? d then [(Keepalive, Sleep d)] else [] in
    let wake := if 0 <? d then now + busy + d else now + busy in
    Some (set_keepalive w (now + busy) m ft wake,
          (Keepalive,
           WriteToUDP Public (relayPayload (arg_port w)) (relayAddr w))
            :: punch_all m ++ nap)
  else None.

(** *** The relay receive goroutine *)

(** [for i, v := range buffer[:4] { buffer[i] = v ^ 0xCC }] *)
Definition unxor (b : list Z) : list Z :=
  ((λ v, Z.lxor v 0xCC) <$> take 4 b) ++ drop 4 b.

(** [i := 4; for i < n { ...; mappings[addrKey{ip, port}] = time.Now();
    i += 6 }], started at [i]. *)
Fixpoint parse_records (fuel : nat) (b : list Z) (i n : nat) (now : Z)
    (m : gmap addrKey Z) : gmap addrKey Z :=
  match fuel with
  | O => m
  | S fuel' =>
      if (i <? n)%nat then
        let k := {| ip := ip_of_bytes (slice b (i + 2) (i + 6));
                    port := Uint16 (slice b i (i + 2)) |} in
        parse_records fuel' b (i + 6) n now (<[k := now]> m)
      else m
  end.

(** [n < 4 || n%6 != 4] *)
Definition wrong_size (n : nat) : bool :=
  (n <? 4)%nat || negb (Z.rem (Z.of_nat n) 6 =? 4).

(** One return of [c.ReadFromUDP(buffer)].  A frame of the right size
    closes [chIp] (here: sets [ipReceived]), stores its records and
    leaves the loop by [break]. *)
Definition relay_read (w : world) (r : recv) : world * trace :=
  match r with
  | RecvErr => (w, [])
  | RecvOk payload addr =>
      let n := read_n (relay_buffer w) 0 payload in
      let b := read_into (relay_buffer w) 0 payload in
      if negb (sameAddr addr (relayAddr w)) then
        (set_relay w (mappings w) true (ipReceived w) b, [])
      else if wrong_size n then
        (set_relay w (mappings w) true (ipReceived w) b,
         [(RelayReceive, Stderr (WrongSizeFromRelay (Z.of_nat n)))])
      else
        let b' := if ipReceived w then b else unxor b in
        let hello : trace :=
          if ipReceived w then []
          else [(RelayReceive,
                 Stdout (ConnectedAs (ip_of_bytes (slice b' 0 4))
                                     (arg_port w)))] in
        (set_relay w (parse_records n b' 4 n (clock w) (mappings w))
                   false true b',
         hello)
  end.

(** *** The main goroutine *)

(** [<-chIp], then [buffer], [peers] and [flushTime] are made. *)
Definition main_wake (w : world) : option (world * trace) :=
  if bool_decide (pc w = WaitIp) && ipReceived w then
    Some (set_main w AtTop newBuffer ∅ (clock w), [])
  else None.

Definition timed_out (now : Z) (kv : addrKey * addrValue) : Prop :=
  flushInterval < now - last kv.2.

#[global] Instance timed_out_dec now kv : Decision (timed_out now kv).
Proof. unfold timed_out. apply _. Defined.

(** What the sweep does for one peer it evicts. *)
Definition evict (kv : addrKey * addrValue) : trace :=
  [(Main, Stdout (PeerTimeout (ip kv.1)));
   (Main, PeersDelete kv.1);
   (Main, Close (Loopback (c kv.2)))].

(** The top of an iteration: [now := time.Now()] and the timeout of old
    peers, up to the call of [c.ReadFromUDP(buffer[1:])]. *)
Definition main_top (w : world) : world * trace :=
  let now := clock w in
  if bool_decide (flushInterval < now - flushTime w) then
    let gone := map_to_list (filter (timed_out now) (peers w)) in
    let kept := filter (λ kv, ¬ timed_out now kv) (peers w) in
    (set_socks (set_main w InRecv (buffer w) kept now)
               (tasks w) (next_sock w)
               (closed w ++ ((λ kv : addrKey * addrValue, c kv.2) <$> gone)),
     concat (evict <$> gone))
  else (set_main w InRecv (buffer w) (peers w) (flushTime w), []).

(** The rest of the iteration, from the return of
    [c.ReadFromUDP(buffer[1:])].  The [defer cLocal.Close()] of a new peer
    would run when [server] returns, which it never does: the loop has no
    exit and [log.Fatal] ends the process without running deferred
    calls. *)
Definition main_read (w : world) (r : recv) (listen_ok : bool)
  : world * trace :=
  match r with
  | RecvErr => (set_main w AtTop (buffer w) (peers w) (flushTime w), [])
  | RecvOk payload addr =>
      let n := read_n (buffer w) 1 payload in
      let b := read_into (buffer w) 1 payload in
      if (length (buffer w) - 1 <? n)%nat then
        (set_main w AtTop b (peers w) (flushTime w),
         [(Main, Stderr (WrongSizeFromPeer (Z.of_nat n)))])
      else if sameAddr addr (relayAddr w) then
        (set_main w AtTop b (peers w) (flushTime w), [])
      else
        let k := newAddrKey addr in
        match peers w !! k with
        | Some v => (* existing peer *)
            let fwd : trace :=
              if negb (Z.of_nat n =? 0) && (nth 1 b 0 =? 0xCC) then
                [(Main, WriteToUDP (Loopback (c v)) (slice b 2 (n + 1))
                                   (localAddr (arg_port w)))]
              else [] in
            (set_main w AtTop b
               (<[k := {| c := c v; last := clock w |}]> (peers w))
               (flushTime w),
             fwd)
        | None => (* new peer *)
            if listen_ok then
              let s := next_sock w in
              (set_socks
                 (set_main w AtTop b
                    (<[k := {| c := s; last := clock w |}]> (peers w))
                    (flushTime w))
                 (<[s := {| t_key := k; t_addr := addr;
                            t_buffer := newBuffer |}]> (tasks w))
                 (S s) (closed w),
               [(Main, Stdout (NewPeerConnected (IP addr)))])
            else
              (set_main w Exited b (peers w) (flushTime w),
               [(Main, Stdout (NewPeerConnected (IP addr)));
                (Main, Fatal)])
        end
  end.

(** *** A per-peer goroutine *)

Definition set_task_buffer (t : task) (b : list Z) : task :=
  {| t_key := t_key t; t_addr := t_addr t; t_buffer := b |}.

(** One return of [cLocal.ReadFromUDP(buffer[1:])] in the goroutine of
    socket [s]. *)
Definition task_read (w : world) (s : nat) (t : task) (r : recv)
  : world * trace :=
  match r with
  | RecvErr =>
      match peers w !! t_key t with
      | Some _ =>
          (set_socks
             (set_main w (pc w) (buffer w) (delete (t_key t) (peers w))
                       (flushTime w))
             (delete s (tasks w)) (next_sock w) (closed w ++ [s]),
           [(PeerTask s, Stderr (PeerReadFailed (t_addr t)));
            (PeerTask s, Close (Loopback s));
            (PeerTask s, PeersDelete (t_key t))])
      | None =>
          (set_socks w (delete s (tasks w)) (next_sock w) (closed w), [])
      end
  | RecvOk payload _ =>
      let n := read_n (t_buffer t) 1 payload in
      let b := read_into (t_buffer t) 1 payload in
      if (length (t_buffer t) - 1 <? n)%nat then
        (set_socks w (<[s := set_task_buffer t b]> (tasks w))
                   (next_sock w) (closed w),
         [(PeerTask s, Stderr (WrongSizeFromGameServer (Z.of_nat n)))])
      else
        let b' := store b 0 0xCC in
        (set_socks w (<[s := set_task_buffer t b']> (tasks w))
                   (next_sock w) (closed w),
         [(PeerTask s, WriteToUDP Public (slice b' 0 (n + 1)) (t_addr t))])
  end.

(** *** Schedules *)

Definition elapse (w : world) (d : Z) : option (world * trace) :=
  if 0 <=? d then Some (set_clock w (clock w + d), []) else None.

(** A datagram is read from a socket only while the socket is open; a
    read can fail at any time. *)
Definition readable (w : world) (s : nat) (r : recv) : bool :=
  match r with
  | RecvErr => true
  | RecvOk _ _ => bool_decide (s ∉ closed w)
  end.

(** One scheduling step; [None] when the event cannot happen in [w].
    After [log.Fatal] the process is gone and nothing happens. *)
Definition step (w : world) (e : event) : option (world * trace) :=
  if bool_decide (pc w = Exited) then None
  else
    match e with
    | Elapse d => elapse w d
    | KeepalivePass busy => keepalive_pass w busy
    | RelayRead r =>
        if relay_alive w then Some (relay_read w r) else None
    | MainWake => main_wake w
    | MainTop =>
        if bool_decide (pc w = AtTop) then Some (main_top w) else None
    | MainRead r listen_ok =>
        if bool_decide (pc w = InRecv) then Some (main_read w r listen_ok)
        else None
    | TaskRead s r =>
        match tasks w !! s with
        | Some t =>
            if readable w s r then Some (task_read w s t r) else None
        | None => None
        end
    end.

Fixpoint run (w : world) (es : list event) : option (world * trace) :=
  match es with
  | [] => Some (w, [])
  | e :: es' =>
      match step w e with
      | Some (w1, t1) =>
          match run w1 es' with
          | Some (w2, t2) => Some (w2, t1 ++ t2)
          | None => None
          end
      | None => None
      end
  end.

(** The world and the trace a schedule ends with ([w] and nothing when the
    schedule cannot happen). *)
Definition after (w : world) (es : list event) : world :=
  match run w es with Some (w', _) => w' | None => w end.

Definition output (w : world) (es : list event) : trace :=
  match run w es with Some (_, t) => t | None => [] end.

(** The worlds of a run: those a schedule leads to after startup. *)
Definition reachable (w : world) : Prop :=
  ∃ s p now w0 es t, start s p now = Some w0 ∧ run w0 es = Some (w, t).

(** What holds in every world of a run. *)
Definition inv (w : world) : Prop :=
  length (buffer w) = bufferSize
  ∧ length (relay_buffer w) = bufferSize
  ∧ (∀ s t, tasks w !! s = Some t → length (t_buffer t) = bufferSize)
  ∧ peers w !! newAddrKey (relayAddr w) = None
  ∧ relay_alive w = negb (ipReceived w)
  ∧ (pc w = WaitIp ∨ ipReceived w = true).

(** The first four bytes of a relay frame, each xor-ed with 0xCC. *)
Definition xor_first_four (frame : list Z) : ip4 :=
  ip_of_bytes ((λ v, Z.lxor v 0xCC) <$> take 4 frame).

(** A trace in which the main goroutine does nothing. *)
Definition main_silent (t : trace) : Prop := ∀ a, ¬ In (Main, a) t.

(** The punch write of the keepalive loop to the endpoint [k]. *)
Definition punch_to (k : addrKey) : activity * action :=
  (Keepalive, WriteToUDP Public punchPayload (toUDP k)).

(** The events in which the read of the main loop returns. *)
Definition is_main_read (e : event) : bool :=
  match e with MainRead _ _ => true | _ => false end.

(** How often [Close] is called on the loopback socket [s] in a trace. *)
Definition close_count (s : nat) (t : trace) : nat :=
  length (filter (λ x : activity * action, x.2 = Close (Loopback s)) t).

(** How the peers table, the per-peer goroutines and the sockets hang
    together: the socket of a record is open and is read by a goroutine
    started for the key of that record; a goroutine was started for the key
    of its address, on a socket already made; so was every socket closed. *)
Definition tables_inv (w : world) : Prop :=
  (∀ k v, peers w !! k = Some v →
     ∃ t, tasks w !! c v = Some t ∧ t_key t = k ∧ c v ∉ closed w)
  ∧ (∀ s t, tasks w !! s = Some t →
       (s < next_sock w)%nat ∧ t_key t = newAddrKey (t_addr t))
  ∧ (∀ s, s ∈ closed w → (s < next_sock w)%nat).

(** The events that are an iteration of the keepalive loop. *)
Definition is_keepalive (e : event) : bool :=
  match e with KeepalivePass _ => true | _ => false end.

End Server.

(** * Scenarios with literal inputs *)

Module Scenario.

Definition relay : UDPAddr := {| IP := (192, 0, 2, 1); Port := 14762 |}.
Definition remote_host : ip4 := (203, 0, 113, 7).
Definition peer : UDPAddr := {| IP := remote_host; Port := 50000 |}.
Definition app : UDPAddr := {| IP := (127, 0, 0, 1); Port := 62000 |}.

Definition os : startup :=
  {| bind_default_ok := true; bind_any_ok := true;
     resolved_relay := Some relay; resolved_remote := Some remote_host |}.

(** S1: a client started with host 203.0.113.7 and port 34000. *)
Definition client0 : Client.world :=
  {| Client.clock := 0; Client.relayAddr := relay;
     Client.arg_port := 34000;
     Client.remoteAddr := {| IP := remote_host; Port := 34000 |};
     Client.at_phase := Client.Learning; Client.buffer := newBuffer;
     Client.foundPeer := false; Client.localAddr := zeroAddr;
     Client.relay_wake := 0; Client.punch_wake := None |}.

(** S1: the relay answers [0xC3, 0x50]; half a second later the punch
    loop has run once. *)
Definition S1_events : list Client.event :=
  [Client.RelayTick; Client.Elapse (200 * millisecond);
   Client.Read (RecvOk [0xC3; 0x50] relay);
   Client.PunchTick; Client.Elapse (300 * millisecond);
   Client.RelayTick].

(** S6: then a datagram from the peer, one from the application and
    another one from the peer. *)
Definition S6_events : list Client.event :=
  S1_events
  ++ [Client.Read (RecvOk [0xCC; 80; 105; 110; 103] peer);
      Client.Read (RecvOk [1; 2] app)].




(** S2: a server started with port 7000. *)
Definition server0 : Server.world :=
  {| Server.clock := 0; Server.relayAddr := relay; Server.arg_port := 7000;
     Server.mappings := ∅; Server.ka_flushTime := 0; Server.ka_wake := 0;
     Server.relay_alive := true; Server.ipReceived := false;
     Server.relay_buffer := newBuffer;
     Server.pc := Server.WaitIp; Server.buffer := newBuffer;
     Server.peers := ∅; Server.flushTime := 0;
     Server.tasks := ∅; Server.next_sock := 0%nat; Server.closed := [] |}.

(** S2: the reply of the relay, 2.0.0.1 xor-ed. *)
Definition first_reply : list Z := [0xCE; 0xCC; 0xCC; 0xCD].

(** S3: the frame that announces 198.51.100.9:10000. *)
Definition peer_frame : list Z :=
  [0xCE; 0xCC; 0xCC; 0xCD; 0x27; 0x10; 198; 51; 100; 9].

Definition peerK : UDPAddr := {| IP := (198, 51, 100, 9); Port := 10000 |}.
Definition peerJ : UDPAddr := {| IP := (198, 51, 100, 77); Port := 20000 |}.

(** S2: the server announces itself, reads the reply and enters the main
    loop. *)
Definition S2_events : list Server.event :=
  [Server.KeepalivePass 0;
   Server.RelayRead (RecvOk first_reply relay);
   Server.MainWake; Server.MainTop].

(** S3: the relay then sends the frame with the record of
    198.51.100.9:10000. *)
Definition S3_events : list Server.event :=
  S2_events
  ++ [Server.MainRead (RecvOk peer_frame relay) true; Server.MainTop].

(** S3, S4: the peer sends [0xCD] and is given socket 0. *)
Definition S4_events : list Server.event :=
  S2_events
  ++ [Server.Elapse second;
      Server.MainRead (RecvOk [0xCD] peerK) true; Server.MainTop].

(** The peer K goes idle; eleven seconds later a datagram of another peer
    wakes the main loop, whose sweep evicts K and closes socket 0.  The
    next datagram read is again from K, which is given socket 2; only then
    does the goroutine of socket 0 see its read fail. *)
Definition evict_and_return : list Server.event :=
  S4_events
  ++ [Server.Elapse (11 * second);
      Server.MainRead (RecvOk [0xCD] peerJ) true; Server.MainTop;
      Server.MainRead (RecvOk [0xCD] peerK) true;
      Server.TaskRead 0 RecvErr].


(** The keepalive loop runs every 500 ms from time 0; the only frame of
    the relay is read at 0.6 s and announces K.  [passes n] are [n] more
    iterations, each 500 ms after the one before. *)
Definition passes (n : nat) : list Server.event :=
  concat (replicate n [Server.Elapse tick; Server.KeepalivePass 0]).

Definition announced_at_600ms : list Server.event :=
  [Server.KeepalivePass 0; Server.Elapse tick; Server.KeepalivePass 0;
   Server.Elapse (100 * millisecond);
   Server.RelayRead (RecvOk peer_frame relay);
   Server.Elapse (400 * millisecond); Server.KeepalivePass 0].

(** Up to the iteration at 10.5 s, then 500 ms more. *)
Definition until_11s : list Server.event :=
  announced_at_600ms ++ passes 19 ++ [Server.Elapse tick].

End Scenario.

(** * The command line: [update] and [main]

    What [main] decides from the flags, the configuration file and the
    lines of standard input, and what it asks.  The environment is given
    by values: the list of releases as decoded from the reply of the
    server, the configuration as decoded from the file, the lines the
    scanner returns ([Scan] is false once they are used up), and how the
    download and installation of an update ends.  [strings.ToLower] and
    [strconv.Atoi] are parameters.  Left out: the banner, the lines on
    standard error about failed file and network operations, and the
    removal of the old executable on Windows; of the write of the
    configuration file, the value written is kept. *)

Module Cli.

(** [type Config struct], as decoded from the YAML file. *)
Record Config := mkConfig {
  Mode : string;
  LocalPort : Z;
  Host : string;
  RemotePort : Z
}.

(** [var config Config] *)
Definition zeroConfig : Config :=
  {| Mode := ""; LocalPort := 0; Host := ""; RemotePort := 0 |}.

(** The flags, after [flag.Parse()]. *)
Record flags := mkFlags {
  f_mode : string;
  f_host : string;
  f_port : Z;
  f_noSave : bool;
  f_noUpdate : bool
}.

(** An entry of the list of releases, as decoded from the JSON reply. *)
Record asset := mkAsset { a_name : string; a_url : string }.

Record release := mkRelease {
  TagName : string;
  Name : string;
  Assets : list asset
}.

(** How [update] goes on after the user agreed: every step succeeds and
    the new program has run; or a step fails with an error; or [os.Stat]
    fails, upon which [info.Mode()] is called on a nil [info]. *)
Inductive install := HasRun | GaveUp | StatFailed.

(** What the program asks on standard output. *)
Inductive said :=
| AskUpdate (name : string)
| AskMode (default : string)
| AskHost (default : string)
| AskPort (default : Z)
| InvalidHostFormat.

(** What [main] ends with: it returns, or calls [client] or [server], or
    the program panics. *)
Inductive started :=
| Returned
| StartClient (host : string) (port : Z)
| StartServer (port : Z)
| Panicked.

(** The answer of a prompt loop: a value and the lines left in the scanner,
    or the end of the input. *)
Inductive asked (A : Type) :=
| Answer (a : A) (rest : list string) (out : list said)
| Eof (out : list said).

Arguments Answer {A} a rest out.
Arguments Eof {A} out.

Definition and_said {A} (x : said) (r : asked A) : asked A :=
  match r with
  | Answer a rest out => Answer a rest (x :: out)
  | Eof out => Eof (x :: out)
  end.

(** [strings.IndexByte(s, c)]; [None] is -1. *)
Fixpoint IndexByte (s : string) (c : ascii) : option nat :=
  match s with
  | EmptyString => None
  | String a s' =>
      if Ascii.eqb a c then Some 0%nat else S <$> IndexByte s' c
  end.

(** [strings.HasPrefix(s, p)] and [strings.Contains(s, sub)] *)
Fixpoint HasPrefix (s p : string) : bool :=
  match p, s with
  | EmptyString, _ => true
  | String b p', String a s' => Ascii.eqb a b && HasPrefix s' p'
  | String _ _, EmptyString => false
  end.

Fixpoint Contains (s sub : string) : bool :=
  HasPrefix s sub
  || match s with
     | EmptyString => false
     | String _ s' => Contains s' sub
     end.

(** [s[:i]] and [s[i+1:]] *)
Definition before (s : string) (i : nat) : string := String.substring 0 i s.
Definition after_byte (s : string) (i : nat) : string :=
  String.substring (S i) (String.length s - S i) s.

Section Library.

(** [strings.ToLower], and [strconv.Atoi] as the value it returns and
    whether its error is nil. *)
Variable ToLower : string → string.
Variable Atoi : string → Z * bool.

(** ** [update] *)

(** The two loops over the releases and their assets, up to the asset that
    is offered: the first asset whose name contains [arch], in the first
    release that has one, unless the tag of the running version comes
    first. *)
Fixpoint offered (releases : list release) (version arch : string)
  : option (release * asset) :=
  match releases with
  | [] => None
  | v :: rest =>
      if String.eqb (TagName v) version then None
      else
        match List.find (λ a, Contains (a_name a) arch) (Assets v) with
        | Some a => Some (v, a)
        | None => offered rest version arch
        end
  end.

Definition is_answer (u : string) : bool :=
  String.eqb u "y" || String.eqb u "yes"
  || String.eqb u "n" || String.eqb u "no".

(** [for update != "y" && update != "yes" && update != "n" &&
    update != "no" { ... }] *)
Fixpoint ask_update (name u : string) (lines : list string) : asked string :=
  if is_answer u then Answer u lines []
  else
    match lines with
    | [] => Eof [AskUpdate name]
    | l :: ls =>
        let u' := ToLower l in
        let u' := if String.eqb u' "" then "y"%string else u' in
        and_said (AskUpdate name) (ask_update name u' ls)
    end.

(** What [update] returns ([None]: it panics), the lines it leaves in the
    scanner and what it asks.  [releases = None]: the list could not be
    fetched or decoded. *)
Definition update (releases : option (list release)) (version arch : string)
    (inst : install) (lines : list string)
  : option bool * list string * list said :=
  match releases with
  | None => (Some false, lines, [])
  | Some rs =>
      match offered rs version arch with
      | None => (Some false, lines, [])
      | Some (v, a) =>
          match ask_update (Name v) "" lines with
          | Eof out => (Some false, [], out)
          | Answer u rest out =>
              if negb (String.eqb u "y" || String.eqb u "yes") then
                (Some false, rest, out)
              else
                match inst with
                | HasRun => (Some true, rest, out)
                | GaveUp => (Some false, rest, out)
                | StatFailed => (None, rest, out)
                end
          end
      end
  end.

(** ** [main] *)

Definition is_mode (m : string) : bool :=
  String.eqb m "s" || String.eqb m "server"
  || String.eqb m "c" || String.eqb m "client".

Definition is_client (m : string) : bool :=
  String.eqb m "c" || String.eqb m "client".

(** The checks on the decoded configuration. *)
Definition checked_port (p : Z) : Z :=
  if (p <=? 0) || (65535 <? p) then 0 else p.

Definition checked (c : Config) : Config :=
  {| Mode := if String.eqb (Mode c) "server" || String.eqb (Mode c) "client"
             then Mode c else "";
     LocalPort := checked_port (LocalPort c);
     Host := Host c;
     RemotePort := checked_port (RemotePort c) |}.

(** [for mode != "s" && mode != "server" && mode != "c" &&
    mode != "client" { ... }] *)
Fixpoint ask_mode (default mode : string) (lines : list string)
  : asked string :=
  if is_mode mode then Answer mode lines []
  else
    match lines with
    | [] => Eof [AskMode default]
    | l :: ls =>
        let m := ToLower l in
        let m := if String.eqb m "" then default else m in
        and_said (AskMode default) (ask_mode default m ls)
    end.

(** [for host == "" { ... }]; the answer is the host and the port. *)
Fixpoint ask_host (default host : string) (port : Z) (lines : list string)
  : asked (string * Z) :=
  if negb (String.eqb host "") then Answer (host, port) lines []
  else
    match lines with
    | [] => Eof [AskHost default]
    | l :: ls =>
        let h := ToLower l in
        if String.eqb h "" then
          and_said (AskHost default) (ask_host default default port ls)
        else
          match IndexByte h ":" with
          | Some i =>
              let '(p, ok) := Atoi (after_byte h i) in
              if ok then
                and_said (AskHost default)
                         (ask_host default (before h i) p ls)
              else
                and_said (AskHost default)
                  (and_said InvalidHostFormat (ask_host default host p ls))
          | None =>
              and_said (AskHost default) (ask_host default h port ls)
          end
    end.

(** [for port == 0 { ... }] *)
Fixpoint ask_port (default port : Z) (lines : list string) : asked Z :=
  if negb (port =? 0) then Answer port lines []
  else
    match lines with
    | [] => Eof [AskPort default]
    | l :: ls =>
        if String.eqb l "" then
          and_said (AskPort default) (ask_port default default ls)
        else
          and_said (AskPort default) (ask_port default (Atoi l).1 ls)
    end.

Record result := mkResult {
  did : started;
  out : list said;
  saved : option Config   (* the configuration [main] sets out to write *)
}.

(** [main] from [var config Config] on.  [file] is the configuration
    decoded from the file, [None] when the file cannot be opened; [lines]
    are the lines left on standard input. *)
Definition configure (fl : flags) (file : option Config)
    (lines : list string) : result :=
  let noConfig :=
    (String.eqb (f_mode fl) "server" && negb (f_port fl =? 0))
    || (String.eqb (f_mode fl) "client"
        && negb (String.eqb (f_host fl) "") && negb (f_port fl =? 0)) in
  let config :=
    if noConfig then zeroConfig
    else match file with
         | Some c => checked c
         | None => zeroConfig
         end in
  let saveMode := String.eqb (f_mode fl) "" in
  let saveHost := String.eqb (f_host fl) "" in
  let savePort := f_port fl =? 0 in
  match ask_mode (Mode config) (f_mode fl) lines with
  | Eof out1 => {| did := Returned; out := out1; saved := None |}
  | Answer mode lines out1 =>
      let mode :=
        if saveMode then
          if String.eqb mode "s" then "server"%string
          else if String.eqb mode "c" then "client"%string else mode
        else mode in
      let config :=
        if saveMode
        then {| Mode := mode; LocalPort := LocalPort config;
                Host := Host config; RemotePort := RemotePort config |}
        else config in
      match
        (if is_client mode
         then ask_host (Host config) (f_host fl) (f_port fl) lines
         else Answer (f_host fl, f_port fl) lines [])
      with
      | Eof out2 => {| did := Returned; out := out1 ++ out2; saved := None |}
      | Answer (host, port) lines out2 =>
          let config :=
            if is_client mode && saveHost
            then {| Mode := Mode config; LocalPort := LocalPort config;
                    Host := host; RemotePort := RemotePort config |}
            else config in
          let configPort :=
            if is_client mode then RemotePort config
            else LocalPort config in
          match ask_port configPort port lines with
          | Eof out3 =>
              {| did := Returned; out := out1 ++ out2 ++ out3;
                 saved := None |}
          | Answer port _ out3 =>
              let config :=
                if savePort then
                  if is_client mode
                  then {| Mode := Mode config;
                          LocalPort := LocalPort config;
                          Host := Host config; RemotePort := port |}
                  else {| Mode := Mode config; LocalPort := port;
                          Host := Host config;
                          RemotePort := RemotePort config |}
                else config in
              {| did := if is_client mode then StartClient host port
                        else StartServer port;
                 out := out1 ++ out2 ++ out3;
                 saved :=
                   if negb noConfig && negb (f_noSave fl)
                      && (saveHost || saveMode || savePort)
                   then Some config else None |}
          end
      end
  end.

(** [main] up to [var config Config]: the default of [ProgramVersion] and
    the call of [update]. *)
Definition update_checked (version arch : string) (fl : flags)
    (releases : option (list release)) (inst : install)
    (lines : list string) : option bool * list string * list said :=
  let version :=
    if String.eqb version "" then "[Custom Build]"%string else version in
  if negb (f_noUpdate fl) && negb (String.eqb arch "")
     && negb (String.eqb version "[Custom Build]")
  then update releases version arch inst lines
  else (Some false, lines, []).

(** [main] from the flags on. *)
Definition main (version arch : string) (fl : flags)
    (releases : option (list release)) (inst : install)
    (file : option Config) (lines : list string) : result :=
  let '(upd, lines, out0) :=
    update_checked version arch fl releases inst lines in
  match upd with
  | None => {| did := Panicked; out := out0; saved := None |}
  | Some true => {| did := Returned; out := out0; saved := None |}
  | Some false =>
      let r := configure fl file lines in
      {| did := did r; out := out0 ++ out r; saved := saved r |}
  end.

End Library.

(** What a prompt loop has asked. *)
Definition said_of {A} (r : asked A) : list said :=
  match r with
  | Answer _ _ o => o
  | Eof o => o
  end.

(** The flags name a role and all that the role needs. *)
Definition complete (fl : flags) : bool :=
  is_mode (f_mode fl)
  && (negb (is_client (f_mode fl)) || negb (String.eqb (f_host fl) ""))
  && negb (f_port fl =? 0).

(** The port a role is started with is one a configuration file may
    hold. *)
Definition port_kept (d : started) : bool :=
  match d with
  | StartClient _ p | StartServer p => (0 <? p) && (p <=? 65535)
  | _ => true
  end.

(** The value of an answer to the port prompt. *)
Definition port_answer (Atoi : string → Z * bool) (default : Z)
    (l : string) : Z :=
  if String.eqb l "" then default else (Atoi l).1.

(** For the scenarios: [strings.ToLower] on ASCII letters, and
    [strconv.Atoi] on strings of at most 18 decimal digits with an optional
    sign. *)
Definition lower_ascii (a : ascii) : ascii :=
  let n := Ascii.nat_of_ascii a in
  if (65 <=? n)%nat && (n <=? 90)%nat then Ascii.ascii_of_nat (n + 32) else a.

Fixpoint ascii_ToLower (s : string) : string :=
  match s with
  | EmptyString => EmptyString
  | String a s' => String (lower_ascii a) (ascii_ToLower s')
  end.

Fixpoint digits (s : string) (acc : Z) : option Z :=
  match s with
  | EmptyString => Some acc
  | String a s' =>
      let n := Ascii.nat_of_ascii a in
      if (48 <=? n)%nat && (n <=? 57)%nat
      then digits s' (10 * acc + Z.of_nat (n - 48))
      else None
  end.

Definition short_Atoi (s : string) : Z * bool :=
  let body (neg : bool) (d : string) :=
    match d with
    | EmptyString => (0, false)
    | _ => match digits d 0 with
           | Some z => (if neg then - z else z, true)
           | None => (0, false)
           end
    end in
  match s with
  | String "-" d => body true d
  | String "+" d => body false d
  | _ => body false s
  end.

End Cli.

Module CliScenario.

Import Cli.

(** The program of the scenarios: Go's functions on ASCII input. *)
Definition run := main ascii_ToLower short_Atoi "v1" "linux".

(** No role flag, [-noupdate]. *)
Definition no_flags : flags := mkFlags "" "" 0 false true.

(** [-mode server -port 7000 -noupdate] *)
Definition server_flags : flags := mkFlags "server" "" 7000 false true.

(** [-mode s -noupdate] and [-mode client -port 5000 -noupdate] *)
Definition short_server : flags := mkFlags "s" "" 0 false true.
Definition client_port : flags := mkFlags "client" "" 5000 false true.

Definition saved_client : Config := mkConfig "client" 0 "example.org" 8000.
Definition saved_server : Config := mkConfig "server" 7000 "" 0.

Definition releases : list release :=
  [ mkRelease "v3" "three" [mkAsset "proxypunch.win64.exe" "w3";
                            mkAsset "proxypunch.linux64" "l3"];
    mkRelease "v2" "two" [mkAsset "proxypunch.linux64" "l2"];
    mkRelease "v1" "one" [mkAsset "proxypunch.linux64" "l1"] ].

End CliScenario.

(** * Receive buffers *)

Section Buffers.

Implicit Types b payload : list Z.

Lemma read_n_le b off payload : (read_n b off payload ≤ length b - off)%nat.
Proof. unfold read_n. rewrite length_take. lia. Qed.

Lemma read_n_payload b off payload :
  (length payload ≤ length b - off)%nat →
  read_n b off payload = length payload.
Proof. unfold read_n. rewrite length_take. lia. Qed.

Lemma read_n_min b off payload :
  read_n b off payload = (length payload `min` (length b - off))%nat.
Proof. unfold read_n. rewrite length_take. lia. Qed.

Lemma read_into_length b off payload :
  (off ≤ length b)%nat → length (read_into b off payload) = length b.
Proof.
  intros Hoff. unfold read_into, read_n.
  rewrite !length_app, length_take, length_drop, length_take. lia.
Qed.

(** The buffer after a read at offset 0: the stored bytes, then what was
    there before. *)
Lemma read_into_0 b payload :
  read_into b 0 payload
  = take (length b) payload ++ drop (read_n b 0 payload) b.
Proof.
  unfold read_into. simpl. rewrite Nat.sub_0_r. reflexivity.
Qed.





Lemma slice_prefix (data rest : list Z) :
  slice (data ++ rest) 0 (length data) = data.
Proof.
  unfold slice. rewrite Nat.sub_0_r, drop_0. apply take_app_length.
Qed.

Lemma Uint16_big_endian hi lo :
  0 ≤ hi < 256 → 0 ≤ lo < 256 → Uint16 [hi; lo] = 256 * hi + lo.
Proof.
  intros Hhi Hlo. unfold Uint16. simpl.
  rewrite Z.shiftl_mul_pow2 by lia.
  change (2 ^ 8) with 256.
  rewrite <- Z.add_nocarry_lor; [lia|].
  apply Z.bits_inj'. intros n Hn.
  rewrite Z.land_spec, Z.bits_0.
  destruct (Z.lt_ge_cases n 8) as [Hlt|Hge].
  - replace (hi * 256) with (hi * 2 ^ 8) by reflexivity.
    rewrite Z.mul_pow2_bits_low by lia. reflexivity.
  - assert (Z.testbit lo n = false) as ->.
    { destruct (Z.eq_dec lo 0) as [->|]; [apply Z.bits_0|].
      apply Z.bits_above_log2; [lia|].
      assert (Z.log2 lo < 8); [|lia].
      apply Z.log2_lt_pow2; lia. }
    apply andb_false_r.
Qed.

End Buffers.

(** * The client: invariants of a run *)

Section ClientRuns.

Import Client.

Lemma client_run_app w es1 es2 :
  run w (es1 ++ es2) =
  match run w es1 with
  | Some (w1, t1) =>
      match run w1 es2 with
      | Some (w2, t2) => Some (w2, t1 ++ t2)
      | None => None
      end
  | None => None
  end.
Proof.
  revert w. induction es1 as [|e es1 IH]; intros w; simpl.
  - destruct (run w es2) as [[w2 t2]|]; reflexivity.
  - destruct (step w e) as [[w1 t1]|]; [|reflexivity].
    rewrite IH. destruct (run w1 es1) as [[wa ta]|]; [|reflexivity].
    destruct (run wa es2) as [[wb tb]|]; [|reflexivity].
    rewrite app_assoc. reflexivity.
Qed.

Lemma client_start_inv s p now w : start s p now = Some w → inv w.
Proof.
  unfold start. intros H.
  repeat case_match; simplify_eq. unfold inv. simpl.
  split; [reflexivity|]. split; [reflexivity|discriminate].
Qed.

Lemma client_step_inv w e w' t : inv w → step w e = Some (w', t) → inv w'.
Proof.
  intros (Hlen & HL & HF) H.
  assert (∀ off payload, (off ≤ 1)%nat →
            length (read_into (buffer w) off payload) = bufferSize)
    as Hread.
  { intros off payload Hoff. rewrite read_into_length; [exact Hlen|].
    rewrite Hlen. unfold bufferSize. lia. }
  destruct e as [d| | |r]; simpl in H.
  - unfold elapse in H. case_match; simplify_eq. exact (conj Hlen (conj HL HF)).
  - unfold relay_tick in H. case_match; simplify_eq.
    exact (conj Hlen (conj HL HF)).
  - unfold punch_tick in H. repeat case_match; simplify_eq.
    split; [exact Hlen|]. split; simpl; intros Hp.
    + specialize (HL Hp). congruence.
    + eexists; reflexivity.
  - destruct (at_phase w) eqn:Hph; simplify_eq.
    + destruct r as [|payload addr]; simpl in H.
      { simplify_eq. unfold inv. rewrite Hph. exact (conj Hlen (conj HL HF)). }
      specialize (Hread 0%nat payload ltac:(lia)).
      repeat case_match; simplify_eq; unfold inv; simpl;
        (split; [exact Hread|]); rewrite ?Hph; split; try congruence;
        try (intros _; eexists; reflexivity); auto.
    + destruct r as [|payload addr]; simpl in H.
      { simplify_eq. unfold inv. rewrite Hph. exact (conj Hlen (conj HL HF)). }
      specialize (Hread 1%nat payload ltac:(lia)).
      repeat case_match; simplify_eq; unfold inv; simpl;
        rewrite ?Hph; unfold store; rewrite ?length_insert;
        (split; [exact Hread|]); split; try congruence; auto.
Qed.

Lemma client_run_inv es : ∀ w w' t,
  inv w → run w es = Some (w', t) → inv w'.
Proof.
  induction es as [|e es IH]; intros w w' t Hinv H; simpl in H.
  - simplify_eq. exact Hinv.
  - destruct (step w e) as [[w1 t1]|] eqn:Hs; [|discriminate].
    destruct (run w1 es) as [[w2 t2]|] eqn:Hr; [|discriminate].
    simplify_eq. eapply IH; [|exact Hr]. eapply client_step_inv; eauto.
Qed.

Lemma client_reachable_inv w : reachable w → inv w.
Proof.
  intros (s & p & now & w0 & es & t & Hs & Hr).
  eapply client_run_inv; [|exact Hr]. eapply client_start_inv; eauto.
Qed.

End ClientRuns.

Section ClientSteps.

Import Client.

Lemma sameAddr_refl a : sameAddr a a = true.
Proof. unfold sameAddr. apply bool_decide_eq_true_2. reflexivity. Qed.

Lemma sameAddr_ne a b : a ≠ b → sameAddr a b = false.
Proof. unfold sameAddr. apply bool_decide_eq_false_2. Qed.

Lemma sameAddr_true a b : sameAddr a b = true → a = b.
Proof. unfold sameAddr. apply bool_decide_eq_true_1. Qed.

Lemma relayPayload_length p remote : length (relayPayload p remote) = 6%nat.
Proof. destruct remote as [[[a0 a1] a2] a3]. reflexivity. Qed.


(** Once the port is learnt, the phase, the remote endpoint and the relay
    endpoint stay. *)
Lemma client_step_forwarding w e w' t :
  at_phase w = Forwarding → step w e = Some (w', t) →
  at_phase w' = Forwarding ∧ remoteAddr w' = remoteAddr w
  ∧ relayAddr w' = relayAddr w.
Proof.
  intros Hph H. destruct e as [d| | |r]; simpl in H.
  - unfold elapse in H. case_match; simplify_eq. auto.
  - unfold relay_tick in H. case_match; simplify_eq. auto.
  - unfold punch_tick in H. repeat case_match; simplify_eq. auto.
  - rewrite Hph in H. unfold forward in H.
    repeat case_match; simplify_eq; auto.
Qed.

Lemma client_run_forwarding es : ∀ w w' t,
  at_phase w = Forwarding → run w es = Some (w', t) →
  at_phase w' = Forwarding ∧ remoteAddr w' = remoteAddr w
  ∧ relayAddr w' = relayAddr w.
Proof.
  induction es as [|e es IH]; intros w w' t Hph H; simpl in H.
  - simplify_eq. auto.
  - destruct (step w e) as [[w1 t1]|] eqn:Hs; [|discriminate].
    destruct (run w1 es) as [[w2 t2]|] eqn:Hr; [|discriminate].
    simplify_eq.
    destruct (client_step_forwarding _ _ _ _ Hph Hs) as (H1 & H2 & H3).
    destruct (IH _ _ _ H1 Hr) as (H4 & H5 & H6).
    rewrite H5, H6. auto.
Qed.

(** A step taken while the port is still unknown: either the port stays
    unknown and nothing is written but the announcement to the relay, or
    the step is the read of a two-byte datagram from the relay. *)
Lemma client_step_learning w e w' t :
  inv w → at_phase w = Learning → step w e = Some (w', t) →
  relayAddr w' = relayAddr w ∧ IP (remoteAddr w') = IP (remoteAddr w)
  ∧ ((at_phase w' = Learning
      ∧ ∀ a s pl to, In (a, WriteToUDP s pl to) t →
          a = RelayLoop ∧ length pl = 6%nat)
     ∨ (∃ reply, e = Read (RecvOk reply (relayAddr w))
          ∧ length reply = 2%nat ∧ t = []
          ∧ at_phase w' = Forwarding
          ∧ Port (remoteAddr w') = Uint16 reply)).
Proof.
  intros (Hlen & HL & _) Hph H. specialize (HL Hph).
  destruct e as [d| | |r]; simpl in H.
  - unfold elapse in H. case_match; simplify_eq. simpl.
    split; [reflexivity|]. split; [reflexivity|]. left.
    split; [exact Hph|]. intros a s pl to [].
  - unfold relay_tick in H. case_match; simplify_eq. simpl.
    split; [reflexivity|]. split; [reflexivity|]. left.
    split; [exact Hph|]. intros a s pl to [Hin|[Hin|[]]]; simplify_eq.
    split; [reflexivity|]. apply relayPayload_length.
  - unfold punch_tick in H. rewrite HL in H. discriminate.
  - rewrite Hph in H. destruct r as [|payload addr]; simpl in H.
    { simplify_eq. split; [reflexivity|]. split; [reflexivity|]. left.
      split; [exact Hph|]. intros a s pl to []. }
    destruct (negb (sameAddr addr (relayAddr w))) eqn:Hrelay.
    { simplify_eq. simpl. split; [reflexivity|]. split; [reflexivity|].
      left. split; [exact Hph|]. intros a s pl to []. }
    destruct (negb (Z.of_nat (read_n (buffer w) 0 payload) =? 2)) eqn:Hn.
    { simplify_eq. simpl. split; [reflexivity|]. split; [reflexivity|].
      left. split; [exact Hph|].
      intros a s pl to [Hin|[]]. discriminate. }
    simplify_eq. simpl. split; [reflexivity|]. split; [reflexivity|].
    right. apply negb_false_iff, sameAddr_true in Hrelay. subst addr.
    apply negb_false_iff, Z.eqb_eq in Hn.
    rewrite read_n_min, Hlen in Hn. unfold bufferSize in Hn.
    assert (length payload = 2%nat) as Hp by lia.
    exists payload. repeat split; try reflexivity; [exact Hp|].
    f_equal. rewrite read_into_0, Hlen, take_ge
      by (rewrite Hp; unfold bufferSize; lia).
    rewrite <- Hp. apply slice_prefix.
Qed.

End ClientSteps.

Section ClientHistory.

Import Client.






End ClientHistory.

(** * The client: port learning, punching and framing *)

Section ClientFraming.

Import Client.




Lemma client_reachable_after s p now w0 es :
  start s p now = Some w0 → is_Some (run w0 es) → reachable (after w0 es).
Proof.
  intros Hs [[w t] Hr]. exists s, p, now, w0, es, t.
  split; [exact Hs|]. unfold after. rewrite Hr. reflexivity.
Qed.








End ClientFraming.

(** * The server: invariants of a run *)

Section ServerRuns.

Import Server.

Lemma server_run_app w es1 es2 :
  run w (es1 ++ es2) =
  match run w es1 with
  | Some (w1, t1) =>
      match run w1 es2 with
      | Some (w2, t2) => Some (w2, t1 ++ t2)
      | None => None
      end
  | None => None
  end.
Proof.
  revert w. induction es1 as [|e es1 IH]; intros w; simpl.
  - destruct (run w es2) as [[w2 t2]|]; reflexivity.
  - destruct (step w e) as [[w1 t1]|]; [|reflexivity].
    rewrite IH. destruct (run w1 es1) as [[wa ta]|]; [|reflexivity].
    destruct (run wa es2) as [[wb tb]|]; [|reflexivity].
    rewrite app_assoc. reflexivity.
Qed.

Lemma newAddrKey_inj a b : newAddrKey a = newAddrKey b → a = b.
Proof. destruct a, b. unfold newAddrKey. simpl. intros H. congruence. Qed.

Lemma toUDP_inj j k : toUDP j = toUDP k → j = k.
Proof. destruct j, k. unfold toUDP. simpl. intros H. congruence. Qed.

Lemma newBuffer_length : length newBuffer = bufferSize.
Proof. apply length_replicate. Qed.

Lemma unxor_length (b : list Z) : length (unxor b) = length b.
Proof.
  unfold unxor. rewrite length_app, length_fmap, length_take, length_drop.
  lia.
Qed.

Lemma server_start_inv s p now w : start s p now = Some w → inv w.
Proof.
  unfold start. intros H. repeat case_match; simplify_eq.
  unfold inv. simpl.
  split; [apply newBuffer_length|]. split; [apply newBuffer_length|].
  split; [intros s' t Hl; rewrite lookup_empty in Hl; discriminate|].
  split; [apply lookup_empty|]. split; [reflexivity|]. left. reflexivity.
Qed.


Lemma server_step_inv w e w' t : inv w → step w e = Some (w', t) → inv w'.
Proof.
  intros (Hb & Hrb & Htb & Hrel & Halive & Hpc) H.
  unfold step in H. case_bool_decide as Hex; [discriminate|].
  destruct e as [d|busy|r| | |r ok|s r].
  - unfold elapse in H. case_match; simplify_eq.
    unfold inv; simpl. auto 10.
  - unfold keepalive_pass in H. case_match; simplify_eq.
    unfold inv; simpl. auto 10.
  - destruct (relay_alive w) eqn:Hal; [|discriminate].
    assert (ipReceived w = false) as Hip.
    { destruct (ipReceived w); [discriminate|reflexivity]. }
    assert (∀ payload,
              length (read_into (relay_buffer w) 0 payload) = bufferSize)
      as Hread.
    { intros payload. rewrite read_into_length; [exact Hrb|lia]. }
    destruct r as [|payload addr]; unfold relay_read in H.
    { simplify_eq. unfold inv. rewrite Hal. intuition congruence. }
    rewrite Hip in H.
    repeat case_match; simplify_eq; unfold inv; simpl;
      rewrite ?unxor_length, ?Hread; intuition congruence.
  - unfold main_wake in H. case_match eqn:Hc; simplify_eq.
    apply andb_true_iff in Hc as [_ Hip].
    unfold inv; simpl.
    split; [apply newBuffer_length|]. split; [exact Hrb|].
    split; [exact Htb|]. split; [apply lookup_empty|].
    split; [exact Halive|]. right. exact Hip.
  - case_bool_decide as Hat; [|discriminate]. simplify_eq.
    assert (ipReceived w = true) as Hip.
    { destruct Hpc as [Hpc|Hpc]; [congruence|exact Hpc]. }
    unfold main_top in H. case_bool_decide; simplify_eq; unfold inv; simpl.
    + split; [exact Hb|]. split; [exact Hrb|]. split; [exact Htb|].
      split; [|auto].
      apply map_lookup_filter_None. left. exact Hrel.
    + auto 10.
  - case_bool_decide as Hat; [|discriminate]. simplify_eq.
    assert (ipReceived w = true) as Hip.
    { destruct Hpc as [Hpc|Hpc]; [congruence|exact Hpc]. }
    assert (∀ payload,
              length (read_into (buffer w) 1 payload) = bufferSize)
      as Hread.
    { intros payload. rewrite read_into_length; [exact Hb|].
      rewrite Hb. unfold bufferSize. lia. }
    destruct r as [|payload addr]; unfold main_read in H.
    { simplify_eq. unfold inv; simpl. auto 10. }
    case_match;
      [simplify_eq; unfold inv; simpl; rewrite Hread; auto 10|].
    destruct (sameAddr addr (relayAddr w)) eqn:Hsame;
      [simplify_eq; unfold inv; simpl; rewrite Hread; auto 10|].
    assert (newAddrKey addr ≠ newAddrKey (relayAddr w)) as Hne.
    { intros Heq. apply newAddrKey_inj in Heq. subst addr.
      rewrite sameAddr_refl in Hsame. discriminate. }
    destruct (peers w !! newAddrKey addr) as [v|] eqn:Hv.
    + simplify_eq. unfold inv; simpl.
      rewrite Hread, lookup_insert_ne by exact Hne. auto 10.
    + destruct ok; simplify_eq; unfold inv; simpl; rewrite Hread;
        [|auto 10].
      rewrite lookup_insert_ne by exact Hne.
      split; [reflexivity|]. split; [exact Hrb|].
      split; [|auto].
      intros s t Hl. apply lookup_insert_Some in Hl as [[_ <-]|[_ Hl]].
      * apply newBuffer_length.
      * eapply Htb; eauto.
  - destruct (tasks w !! s) as [tk|] eqn:Htk; [|discriminate].
    case_match; [|discriminate]. simplify_eq.
    pose proof (Htb _ _ Htk) as Hlen.
    assert (∀ payload,
              length (read_into (t_buffer tk) 1 payload) = bufferSize)
      as Hread.
    { intros payload. rewrite read_into_length; [exact Hlen|].
      rewrite Hlen. unfold bufferSize. lia. }
    destruct r as [|payload addr]; unfold task_read in H.
    + destruct (peers w !! t_key tk) eqn:Hk; simplify_eq; unfold inv; simpl.
      * split; [exact Hb|]. split; [exact Hrb|].
        split; [intros s' t' Hl; apply lookup_delete_Some in Hl as [_ Hl];
                eapply Htb; eauto|].
        split; [|auto].
        apply lookup_delete_None. right. exact Hrel.
      * split; [exact Hb|]. split; [exact Hrb|].
        split; [intros s' t' Hl; apply lookup_delete_Some in Hl as [_ Hl];
                eapply Htb; eauto|].
        auto.
    + case_match; simplify_eq; unfold inv; simpl;
        (split; [exact Hb|]); (split; [exact Hrb|]); (split; [|auto]);
        intros s' t' Hl; apply lookup_insert_Some in Hl as [[_ <-]|[_ Hl]];
        simpl; unfold store; rewrite ?length_insert, ?Hread;
        try reflexivity; eapply Htb; eauto.
Qed.

Lemma server_run_inv es : ∀ w w' t,
  inv w → run w es = Some (w', t) → inv w'.
Proof.
  induction es as [|e es IH]; intros w w' t Hinv H; simpl in H.
  - simplify_eq. exact Hinv.
  - destruct (step w e) as [[w1 t1]|] eqn:Hs; [|discriminate].
    destruct (run w1 es) as [[w2 t2]|] eqn:Hr; [|discriminate].
    simplify_eq. eapply IH; [|exact Hr]. eapply server_step_inv; eauto.
Qed.

Lemma server_reachable_inv w : reachable w → inv w.
Proof.
  intros (s & p & now & w0 & es & t & Hs & Hr).
  eapply server_run_inv; [|exact Hr]. eapply server_start_inv; eauto.
Qed.

Lemma server_reachable_after s p now w0 es :
  start s p now = Some w0 → is_Some (run w0 es) → reachable (after w0 es).
Proof.
  intros Hs [[w t] Hr]. exists s, p, now, w0, es, t.
  split; [exact Hs|]. unfold after. rewrite Hr. reflexivity.
Qed.

End ServerRuns.

Section ServerHistory.

Import Server.

Lemma main_silent_nil : main_silent [].
Proof. intros a []. Qed.

Lemma main_silent_app t1 t2 :
  main_silent t1 → main_silent t2 → main_silent (t1 ++ t2).
Proof.
  intros H1 H2 a Hin. apply in_app_or in Hin as [Hin|Hin];
    [eapply H1|eapply H2]; eauto.
Qed.

Lemma main_silent_fmap {A} (f : A → action) (a : activity) (l : list A) :
  a ≠ Main → main_silent ((λ x, (a, f x)) <$> l).
Proof.
  intros Ha x Hin. apply in_map_iff in Hin as (y & Heq & _). congruence.
Qed.

Lemma wrong_size_false n :
  wrong_size n = false → (4 ≤ n)%nat.
Proof.
  unfold wrong_size. intros H. apply orb_false_iff in H as [H _].
  apply Nat.ltb_ge in H. exact H.
Qed.

(** The bytes the server prints as its address: the first four bytes of
    the frame, xor-ed. *)
Lemma unxor_first_four (b frame : list Z) :
  length b = bufferSize → (4 ≤ read_n b 0 frame)%nat →
  ip_of_bytes (slice (unxor (read_into b 0 frame)) 0 4)
  = xor_first_four frame.
Proof.
  intros Hb Hn. unfold xor_first_four. f_equal.
  rewrite read_n_min in Hn.
  rewrite read_into_0. unfold unxor.
  assert (take 4 (take (length b) frame ++ drop (read_n b 0 frame) b)
          = take 4 frame) as ->.
  { rewrite take_app_le by (rewrite length_take; lia).
    rewrite take_take. f_equal. lia. }
  assert (length ((λ v, Z.lxor v 204) <$> take 4 frame) = 4%nat) as Hl.
  { rewrite length_fmap, length_take. lia. }
  pose proof (slice_prefix ((λ v, Z.lxor v 204) <$> take 4 frame)
                (drop 4 (take (length b) frame ++ drop (read_n b 0 frame) b)))
    as Hs.
  rewrite Hl in Hs. exact Hs.
Qed.

(** A step taken while the main goroutine waits on [chIp] and no frame of
    the relay has been accepted: either nothing of that changes and the
    main goroutine does nothing, or the step is the read of a relay frame
    of a right size, which prints the xor-ed address. *)
Lemma server_step_waiting w e w' t :
  inv w → pc w = WaitIp → ipReceived w = false → step w e = Some (w', t) →
  relayAddr w' = relayAddr w ∧ arg_port w' = arg_port w ∧ pc w' = WaitIp
  ∧ ((ipReceived w' = false ∧ main_silent t)
     ∨ (∃ frame, e = RelayRead (RecvOk frame (relayAddr w))
          ∧ wrong_size (read_n (relay_buffer w) 0 frame) = false
          ∧ t = [(RelayReceive,
                  Stdout (ConnectedAs (xor_first_four frame) (arg_port w)))]
          ∧ ipReceived w' = true)).
Proof.
  intros (Hb & Hrb & Htb & Hrel & Halive & _) Hpc Hip H.
  unfold step in H. case_bool_decide as Hex; [discriminate|].
  destruct e as [d|busy|r| | |r ok|s r].
  - unfold elapse in H. case_match; simplify_eq. simpl.
    repeat (split; [reflexivity|]). split; [exact Hpc|]. left.
    split; [first [exact Hip|reflexivity]|apply main_silent_nil].
  - unfold keepalive_pass in H. case_match; simplify_eq. simpl.
    repeat (split; [reflexivity|]). split; [exact Hpc|]. left.
    split; [first [exact Hip|reflexivity]|].
    intros act [Hin|Hin]; [discriminate|].
    apply in_app_or in Hin as [Hin|Hin].
    + unfold punch_all in Hin.
      apply in_map_iff in Hin as (y & Heq & _). discriminate.
    + case_match; [destruct Hin as [Hin|[]]; discriminate|destruct Hin].
  - destruct (relay_alive w); [|discriminate]. simplify_eq.
    destruct r as [|frame addr]; unfold relay_read in H.
    { simplify_eq. repeat (split; [reflexivity|]). split; [exact Hpc|].
      left. split; [first [exact Hip|reflexivity]|apply main_silent_nil]. }
    rewrite Hip in H.
    destruct (negb (sameAddr addr (relayAddr w))) eqn:Hsame.
    { simplify_eq. simpl. repeat (split; [reflexivity|]).
      split; [exact Hpc|]. left. split; [first [exact Hip|reflexivity]|apply main_silent_nil]. }
    destruct (wrong_size (read_n (relay_buffer w) 0 frame)) eqn:Hws.
    { simplify_eq. simpl. repeat (split; [reflexivity|]).
      split; [exact Hpc|]. left. split; [first [exact Hip|reflexivity]|].
      intros act [Hin|[]]. discriminate. }
    simplify_eq. simpl. repeat (split; [reflexivity|]).
    split; [exact Hpc|]. right.
    apply negb_false_iff, sameAddr_true in Hsame. subst addr.
    exists frame. split; [reflexivity|]. split; [exact Hws|].
    split; [|reflexivity].
    rewrite unxor_first_four; [reflexivity|exact Hrb|].
    apply wrong_size_false. exact Hws.
  - unfold main_wake in H. rewrite Hip, andb_false_r in H. discriminate.
  - rewrite Hpc in H. case_bool_decide; discriminate.
  - rewrite Hpc in H. case_bool_decide; discriminate.
  - destruct (tasks w !! s) as [tk|]; [|discriminate].
    case_match; [|discriminate]. simplify_eq.
    destruct r as [|payload addr]; unfold task_read in H.
    + destruct (peers w !! t_key tk); simplify_eq; simpl;
        repeat (split; [reflexivity|]); (split; [exact Hpc|]); left;
        (split; [first [exact Hip|reflexivity]|]).
      * intros act Hin. repeat (destruct Hin as [Hin|Hin]; [discriminate|]).
        destruct Hin.
      * apply main_silent_nil.
    + case_match; simplify_eq; simpl;
        repeat (split; [reflexivity|]); (split; [exact Hpc|]); left;
        (split; [first [exact Hip|reflexivity]|]);
        intros act [Hin|[]]; discriminate.
Qed.

(** Once a frame has been accepted, the relay receive loop is over. *)
Lemma server_step_received w e w' t :
  ipReceived w = true → step w e = Some (w', t) →
  ipReceived w' = true ∧ relayAddr w' = relayAddr w.
Proof.
  intros Hip H. unfold step in H. case_bool_decide as Hex; [discriminate|].
  destruct e as [d|busy|r| | |r ok|s r].
  - unfold elapse in H. case_match; simplify_eq. auto.
  - unfold keepalive_pass in H. case_match; simplify_eq. auto.
  - destruct (relay_alive w); [|discriminate]. simplify_eq.
    unfold relay_read in H. repeat case_match; simplify_eq; auto.
  - unfold main_wake in H. case_match; simplify_eq. auto.
  - case_bool_decide; [|discriminate]. simplify_eq.
    unfold main_top in H. case_bool_decide; simplify_eq; auto.
  - case_bool_decide; [|discriminate]. simplify_eq.
    unfold main_read in H. repeat case_match; simplify_eq; auto.
  - destruct (tasks w !! s) as [tk|]; [|discriminate].
    case_match; [|discriminate]. simplify_eq.
    unfold task_read in H. repeat case_match; simplify_eq; auto.
Qed.

(** A run from startup either still waits for the first frame of the
    relay, the main goroutine having done nothing, or splits at the read of
    that frame. *)
Lemma server_waiting_history es : ∀ w0 w tr,
  inv w0 → pc w0 = WaitIp → ipReceived w0 = false →
  run w0 es = Some (w, tr) →
  (pc w = WaitIp ∧ ipReceived w = false ∧ main_silent tr)
  ∨ (∃ es1 frame es2 w1 t1 w1' t2,
       es = es1 ++ RelayRead (RecvOk frame (relayAddr w0)) :: es2
       ∧ run w0 es1 = Some (w1, t1)
       ∧ pc w1 = WaitIp ∧ ipReceived w1 = false ∧ main_silent t1
       ∧ wrong_size (read_n (relay_buffer w1) 0 frame) = false
       ∧ step w1 (RelayRead (RecvOk frame (relayAddr w0)))
         = Some (w1', [(RelayReceive,
                        Stdout (ConnectedAs (xor_first_four frame)
                                            (arg_port w0)))])
       ∧ run w1' es2 = Some (w, t2)
       ∧ tr = t1 ++ (RelayReceive,
                     Stdout (ConnectedAs (xor_first_four frame)
                                         (arg_port w0))) :: t2).
Proof.
  induction es as [|e es IH]; intros w0 w tr Hinv Hpc Hip H; simpl in H.
  - simplify_eq. left. split; [exact Hpc|]. split; [exact Hip|].
    apply main_silent_nil.
  - destruct (step w0 e) as [[wa ta]|] eqn:Hs; [|discriminate].
    destruct (run wa es) as [[wb tb]|] eqn:Hr; [|discriminate].
    simplify_eq.
    pose proof (server_step_inv _ _ _ _ Hinv Hs) as Hinva.
    destruct (server_step_waiting _ _ _ _ Hinv Hpc Hip Hs)
      as (Hrelay & Hport & Hpca
          & [[Hipa Hta]|(frame & -> & Hws & -> & Hipa)]).
    + destruct (IH _ _ _ Hinva Hpca Hipa Hr)
        as [(Hpcw & Hipw & Htb)
           |(es1 & frame & es2 & w1 & t1 & w1' & t2 & Hes & Hr1 & Hpc1
             & Hip1 & Ht1 & Hws & Hs1 & Hr2 & Htr)].
      * left. split; [exact Hpcw|]. split; [exact Hipw|].
        apply main_silent_app; assumption.
      * right. rewrite Hrelay in Hes, Hs1. rewrite Hport in Hs1, Htr.
        exists (e :: es1), frame, es2, w1, (ta ++ t1), w1', t2.
        split; [rewrite Hes; reflexivity|].
        split; [simpl; rewrite Hs, Hr1; reflexivity|].
        split; [exact Hpc1|]. split; [exact Hip1|].
        split; [apply main_silent_app; assumption|].
        split; [exact Hws|]. split; [exact Hs1|].
        split; [exact Hr2|]. rewrite Htr. apply app_assoc.
    + right. exists [], frame, es, w0, [], wa, tb.
      split; [reflexivity|]. split; [reflexivity|].
      split; [exact Hpc|]. split; [exact Hip|].
      split; [apply main_silent_nil|].
      split; [exact Hws|]. split; [exact Hs|].
      split; [exact Hr|]. reflexivity.
Qed.

End ServerHistory.

Section ServerMainGoroutine.

Import Server.

(** How each event moves the main goroutine. *)
Lemma server_step_pc w e w' t :
  step w e = Some (w', t) →
  match e with
  | MainWake => pc w = WaitIp ∧ pc w' = AtTop
  | MainTop => pc w = AtTop ∧ pc w' = InRecv
  | MainRead _ _ => pc w = InRecv ∧ (pc w' = AtTop ∨ pc w' = Exited)
  | _ => pc w' = pc w
  end.
Proof.
  intros H. unfold step in H. case_bool_decide as Hex; [discriminate|].
  destruct e as [d|busy|r| | |r ok|s r].
  - unfold elapse in H. case_match; simplify_eq. reflexivity.
  - unfold keepalive_pass in H. case_match; simplify_eq. reflexivity.
  - destruct (relay_alive w); [|discriminate]. simplify_eq.
    unfold relay_read in H. repeat case_match; simplify_eq; reflexivity.
  - unfold main_wake in H. case_match eqn:Hc; simplify_eq.
    apply andb_true_iff in Hc as [Hc _]. apply bool_decide_eq_true_1 in Hc.
    auto.
  - case_bool_decide; [|discriminate]. simplify_eq.
    unfold main_top in H. case_bool_decide; simplify_eq; auto.
  - case_bool_decide; [|discriminate]. simplify_eq.
    unfold main_read in H. repeat case_match; simplify_eq; auto.
  - destruct (tasks w !! s) as [tk|]; [|discriminate].
    case_match; [|discriminate]. simplify_eq.
    unfold task_read in H. repeat case_match; simplify_eq; reflexivity.
Qed.

(** Only the two halves of an iteration of the main loop make the main
    goroutine act. *)
Lemma server_step_main_acts w e w' t a :
  step w e = Some (w', t) → In (Main, a) t →
  e = MainTop ∨ ∃ r ok, e = MainRead r ok.
Proof.
  intros H Hin. unfold step in H. case_bool_decide as Hex; [discriminate|].
  destruct e as [d|busy|r| | |r ok|s r]; [..|left; reflexivity|right; eauto|];
    exfalso.
  - unfold elapse in H. case_match; simplify_eq; destruct Hin.
  - unfold keepalive_pass in H. case_match; [|discriminate]. simplify_eq.
    destruct Hin as [Hin|Hin]; [discriminate|].
    apply in_app_or in Hin as [Hin|Hin].
    + unfold punch_all in Hin.
      apply in_map_iff in Hin as (y & Heq & _). discriminate.
    + case_match; [destruct Hin as [Hin|[]]; discriminate|destruct Hin].
  - destruct (relay_alive w); [|discriminate]. simplify_eq.
    unfold relay_read in H.
    repeat case_match; simplify_eq; simpl in Hin;
      repeat (destruct Hin as [Hin|Hin]; [discriminate|]); destruct Hin.
  - unfold main_wake in H. case_match; simplify_eq; destruct Hin.
  - destruct (tasks w !! s) as [tk|]; [|discriminate].
    case_match; [|discriminate]. simplify_eq.
    unfold task_read in H.
    repeat case_match; simplify_eq; simpl in Hin;
      repeat (destruct Hin as [Hin|Hin]; [discriminate|]); destruct Hin.
Qed.

(** While the main goroutine waits on [chIp] it has done nothing. *)
Lemma server_run_waiting_silent es : ∀ w w' t,
  run w es = Some (w', t) → pc w' = WaitIp → pc w = WaitIp ∧ main_silent t.
Proof.
  induction es as [|e es IH]; intros w w' t H Hpc; simpl in H.
  - simplify_eq. split; [exact Hpc|apply main_silent_nil].
  - destruct (step w e) as [[wa ta]|] eqn:Hs; [|discriminate].
    destruct (run wa es) as [[wb tb]|] eqn:Hr; [|discriminate].
    simplify_eq.
    destruct (IH _ _ _ Hr Hpc) as [Hpca Htb].
    pose proof (server_step_pc _ _ _ _ Hs) as Hstep.
    assert (pc w = WaitIp ∧ e ≠ MainTop ∧ ∀ r ok, e ≠ MainRead r ok)
      as (Hpcw & Hnt & Hnr).
    { destruct e; try (rewrite <- Hstep; split; [exact Hpca|];
                       split; [discriminate|intros; discriminate]);
        exfalso; intuition congruence. }
    split; [exact Hpcw|].
    apply main_silent_app; [|exact Htb].
    intros a Hin.
    destruct (server_step_main_acts _ _ _ _ _ Hs Hin) as [He|(r & ok & He)].
    + exact (Hnt He).
    + exact (Hnr _ _ He).
Qed.

End ServerMainGoroutine.

(** * The server: the records of the first relay frame *)

Section RelayRecords.

Import Server.

(** An entry stored with the current time stays so to the end of the
    loop. *)
Lemma parse_records_keeps fuel : ∀ (b : list Z) i n now m k,
  m !! k = Some now → parse_records fuel b i n now m !! k = Some now.
Proof.
  induction fuel as [|fuel IH]; intros b i n now m k Hk; simpl;
    [exact Hk|].
  case_match; [|exact Hk]. apply IH.
  destruct (decide
              ({| ip := ip_of_bytes (slice b (i + 2) (i + 6));
                  port := Uint16 (slice b i (i + 2)) |} = k)) as [->|Hne].
  - apply lookup_insert_eq.
  - rewrite lookup_insert_ne by exact Hne. exact Hk.
Qed.

(** The loop stores, with the current time, the record at every offset
    [i + 6 * q] below [n]. *)
Lemma parse_records_stores fuel : ∀ (b : list Z) i n now m q,
  (q < fuel)%nat → (i + 6 * q < n)%nat →
  parse_records fuel b i n now m
    !! {| ip := ip_of_bytes (slice b (i + 6 * q + 2) (i + 6 * q + 6));
          port := Uint16 (slice b (i + 6 * q) (i + 6 * q + 2)) |}
  = Some now.
Proof.
  induction fuel as [|fuel IH]; intros b i n now m q Hq Hn; [lia|].
  cbn [parse_records].
  assert ((i <? n)%nat = true) as -> by (apply Nat.ltb_lt; lia).
  destruct q as [|q].
  - replace (i + 6 * 0)%nat with i by lia.
    apply parse_records_keeps. apply lookup_insert_eq.
  - replace (i + 6 * S q)%nat with (i + 6 + 6 * q)%nat by lia.
    apply IH; lia.
Qed.

(** Beyond the first four bytes, the buffer the records are read from
    holds the bytes of the frame. *)
Lemma slice_unxor_read (old frame : list Z) lo hi :
  (4 ≤ lo)%nat → (lo ≤ hi)%nat → (hi ≤ length frame)%nat →
  (length frame ≤ length old)%nat →
  slice (unxor (read_into old 0 frame)) lo hi = slice frame lo hi.
Proof.
  intros Hlo Hhi Hfit Hold.
  rewrite read_into_0, take_ge by lia.
  unfold unxor, slice.
  assert (length ((λ v, Z.lxor v 204)
                  <$> take 4 (frame ++ drop (read_n old 0 frame) old))
          = 4%nat) as Hfour.
  { rewrite length_fmap, length_take, length_app. lia. }
  rewrite drop_app_ge by lia. rewrite Hfour, drop_drop.
  replace (4 + (lo - 4))%nat with lo by lia.
  rewrite drop_app_le by lia.
  rewrite take_app_le by (rewrite length_drop; lia).
  reflexivity.
Qed.

(** The first frame of a right size that the relay receive loop reads has
    every one of its records stored in the mapping table, with the current
    time. *)
Lemma server_first_frame_records w frame w' t q :
  inv w → relay_alive w = true → pc w ≠ Exited →
  (length frame ≤ bufferSize)%nat → wrong_size (length frame) = false →
  step w (RelayRead (RecvOk frame (relayAddr w))) = Some (w', t) →
  (4 + 6 * q + 6 ≤ length frame)%nat →
  mappings w'
    !! {| ip := ip_of_bytes (slice frame (4 + 6 * q + 2) (4 + 6 * q + 6));
          port := Uint16 (slice frame (4 + 6 * q) (4 + 6 * q + 2)) |}
  = Some (clock w)
  ∧ relay_alive w' = false ∧ ipReceived w' = true.
Proof.
  intros (_ & Hrb & _ & _ & Halive & _) Hal Hlive Hfit Hws H Hq.
  assert (ipReceived w = false) as Hip.
  { rewrite Hal in Halive. destruct (ipReceived w); [discriminate|reflexivity]. }
  rewrite <- (slice_unxor_read (relay_buffer w) frame
                (4 + 6 * q + 2) (4 + 6 * q + 6)) by lia.
  rewrite <- (slice_unxor_read (relay_buffer w) frame
                (4 + 6 * q) (4 + 6 * q + 2)) by lia.
  unfold step in H. rewrite bool_decide_eq_false_2 in H by exact Hlive.
  rewrite Hal in H. unfold relay_read in H.
  rewrite sameAddr_refl, read_n_payload, Hws, Hip in H by lia.
  cbn [negb] in H. simplify_eq.
  split; [|split; reflexivity].
  cbn [mappings set_relay].
  apply parse_records_stores; lia.
Qed.

End RelayRecords.

(** * The server: startup ordering *)

Section ServerOrdering.

Import Server.

Lemma server_start_waiting s p now w :
  start s p now = Some w →
  pc w = WaitIp ∧ ipReceived w = false ∧ arg_port w = p
  ∧ ka_wake w = clock w ∧ mappings w = ∅.
Proof.
  unfold start. intros H. repeat case_match; simplify_eq. simpl. auto.
Qed.

(** The first iteration of the keepalive loop can run as soon as the
    server has started: it writes the announcement and sleeps 500 ms. *)
Lemma server_first_announcement s p now w :
  start s p now = Some w →
  ∃ w', step w (KeepalivePass 0)
        = Some (w', [(Keepalive,
                      WriteToUDP Public (relayPayload p) (relayAddr w));
                     (Keepalive, Sleep tick)])
        ∧ ipReceived w' = false ∧ pc w' = WaitIp.
Proof.
  unfold start. intros H. repeat case_match; simplify_eq.
  unfold step, keepalive_pass. simpl.
  rewrite Z.leb_refl. simpl.
  rewrite bool_decide_eq_false_2
    by (rewrite Z.sub_diag; unfold flushInterval, second, millisecond; lia).
  unfold punch_all. rewrite map_to_list_empty. simpl.
  eexists. split; [reflexivity|]. split; reflexivity.
Qed.

(** C6.  In a server run from startup:
    - the keepalive loop can run its first iteration, which writes the
      announcement to the relay, in the very first world, where no relay
      frame has been read and the main goroutine waits;
    - as long as the main goroutine waits, it has done nothing;
    - when it no longer waits, the run splits at the first relay frame of
      a right size: before that frame the main goroutine waits and has done
      nothing, and at that frame the server prints as its address the first
      four bytes of the frame, each xor-ed with 0xCC. *)
Theorem C6_main_loop_after_first_reply s p now w0 es w tr :
  start s p now = Some w0 → run w0 es = Some (w, tr) →
  (∃ w', step w0 (KeepalivePass 0)
         = Some (w', [(Keepalive,
                       WriteToUDP Public (relayPayload p) (relayAddr w0));
                      (Keepalive, Sleep tick)])
         ∧ ipReceived w' = false ∧ pc w' = WaitIp)
  ∧ (pc w = WaitIp → main_silent tr)
  ∧ (pc w = WaitIp →
     step w MainTop = None ∧ ∀ r ok, step w (MainRead r ok) = None)
  ∧ (pc w ≠ WaitIp ∨ ipReceived w = true →
     ∃ es1 frame es2 w1 t1 t2,
       es = es1 ++ RelayRead (RecvOk frame (relayAddr w0)) :: es2
       ∧ run w0 es1 = Some (w1, t1)
       ∧ pc w1 = WaitIp ∧ ipReceived w1 = false ∧ main_silent t1
       ∧ wrong_size (read_n (relay_buffer w1) 0 frame) = false
       ∧ tr = t1 ++ (RelayReceive,
                     Stdout (ConnectedAs (xor_first_four frame) p)) :: t2).
Proof.
  intros Hs Hr.
  pose proof (server_start_inv _ _ _ _ Hs) as Hinv0.
  destruct (server_start_waiting _ _ _ _ Hs) as (Hpc0 & Hip0 & Hp & _ & _).
  split; [exact (server_first_announcement _ _ _ _ Hs)|].
  split.
  { intros Hpcw. exact (proj2 (server_run_waiting_silent _ _ _ _ Hr Hpcw)). }
  destruct (server_waiting_history es w0 w tr Hinv0 Hpc0 Hip0 Hr)
    as [(Hpcw & Hipw & Htr)
       |(es1 & frame & es2 & w1 & t1 & w1' & t2 & Hes & Hr1 & Hpc1 & Hip1
         & Ht1 & Hws & Hs1 & Hr2 & Htr)].
  - split.
    { intros _. unfold step. rewrite Hpcw. simpl. auto. }
    intros [Hne|Hne]; congruence.
  - assert (ipReceived w = true) as Hipw.
    { assert (ipReceived w1' = true) as Hip1'.
      { unfold step in Hs1. case_bool_decide; [discriminate|].
        destruct (relay_alive w1); [|discriminate].
        unfold relay_read in Hs1.
        repeat case_match; simplify_eq; reflexivity. }
      clear - Hip1' Hr2. revert w1' t2 Hip1' Hr2.
      induction es2 as [|e es2 IH]; intros w1' t2 Hip Hr2; simpl in Hr2.
      - simplify_eq. exact Hip.
      - destruct (step w1' e) as [[wa ta]|] eqn:Hsa; [|discriminate].
        destruct (run wa es2) as [[wb tb]|] eqn:Hrb; [|discriminate].
        simplify_eq.
        destruct (server_step_received _ _ _ _ Hip Hsa) as [Hipa _].
        eapply IH; eauto. }
    split.
    { intros Hpcw. unfold step. rewrite Hpcw. simpl. auto. }
    intros _. exists es1, frame, es2, w1, t1, t2.
    rewrite <- Hp. auto 10.
Qed.

(** S2: the reply [0xCE, 0xCC, 0xCC, 0xCD] makes the server print 2.0.0.1
    and enter the main loop. *)
Lemma C6_main_loop_after_first_reply_witness :
  ∃ es1 frame es2 w1 t1 t2,
    Scenario.S2_events
    = es1 ++ RelayRead (RecvOk frame Scenario.relay) :: es2
    ∧ run Scenario.server0 es1 = Some (w1, t1)
    ∧ pc w1 = WaitIp ∧ ipReceived w1 = false ∧ main_silent t1
    ∧ wrong_size (read_n (relay_buffer w1) 0 frame) = false
    ∧ output Scenario.server0 Scenario.S2_events
      = t1 ++ (RelayReceive,
               Stdout (ConnectedAs (xor_first_four frame) 7000)) :: t2.
Proof.
  destruct (C6_main_loop_after_first_reply Scenario.os 7000 0
              Scenario.server0 Scenario.S2_events
              (after Scenario.server0 Scenario.S2_events)
              (output Scenario.server0 Scenario.S2_events))
    as (_ & _ & _ & Hsplit); [reflexivity|vm_compute; reflexivity|].
  apply Hsplit. left. vm_compute. discriminate.
Defined.

End ServerOrdering.

(** * The server: datagrams of known peers and the idle sweep *)

Section ServerPeers.

Import Server.


Lemma server_step_main_read w r ok :
  pc w = InRecv → step w (MainRead r ok) = Some (main_read w r ok).
Proof. intros H. unfold step. rewrite H. reflexivity. Qed.



(** A step other than a return of the read of the main loop, taken while
    the main goroutine is blocked in that read. *)
Lemma server_step_blocked w e w' t :
  pc w = InRecv → is_main_read e = false → step w e = Some (w', t) →
  pc w' = InRecv ∧ flushTime w' = flushTime w ∧ main_silent t
  ∧ ∀ k v, peers w !! k = Some v →
      peers w' !! k = Some v ∨ ∃ s, In (PeerTask s, PeersDelete k) t.
Proof.
  intros Hpc He H.
  pose proof (server_step_pc _ _ _ _ H) as Hstep.
  assert (main_silent t) as Hsilent.
  { intros a Hin.
    destruct (server_step_main_acts _ _ _ _ _ H Hin) as [->|(r & ok & ->)].
    - destruct Hstep as [Hat _]. congruence.
    - discriminate. }
  unfold step in H. case_bool_decide as Hex; [discriminate|].
  destruct e as [d|busy|r| | |r ok|s r]; try discriminate.
  - unfold elapse in H. case_match; simplify_eq. simpl. auto.
  - unfold keepalive_pass in H. case_match; simplify_eq. simpl. auto.
  - destruct (relay_alive w); [|discriminate]. simplify_eq.
    unfold relay_read in H. repeat case_match; simplify_eq; simpl; auto.
  - destruct Hstep as [Hw _]. congruence.
  - destruct Hstep as [Hat _]. congruence.
  - destruct (tasks w !! s) as [tk|]; [|discriminate].
    case_match; [|discriminate]. simplify_eq.
    destruct r as [|payload addr]; unfold task_read in H.
    + destruct (peers w !! t_key tk) eqn:Hk; simplify_eq; simpl;
        (split; [exact Hpc|]); (split; [reflexivity|]);
        (split; [exact Hsilent|]); [|auto].
      intros k v Hv. destruct (decide (k = t_key tk)) as [->|Hne].
      * right. exists s. simpl. auto.
      * left. rewrite lookup_delete_ne by congruence. exact Hv.
    + case_match; simplify_eq; simpl; auto.
Qed.

Lemma server_run_blocked es : ∀ w w' t,
  pc w = InRecv → Forall (λ e, is_main_read e = false) es →
  run w es = Some (w', t) →
  pc w' = InRecv ∧ flushTime w' = flushTime w ∧ main_silent t
  ∧ ∀ k v, peers w !! k = Some v →
      peers w' !! k = Some v ∨ ∃ s, In (PeerTask s, PeersDelete k) t.
Proof.
  induction es as [|e es IH]; intros w w' t Hpc Hes H; simpl in H.
  - simplify_eq. split; [exact Hpc|]. split; [reflexivity|].
    split; [apply main_silent_nil|]. auto.
  - destruct (step w e) as [[wa ta]|] eqn:Hs; [|discriminate].
    destruct (run wa es) as [[wb tb]|] eqn:Hr; [|discriminate].
    simplify_eq. apply Forall_cons in Hes as [He Hes].
    destruct (server_step_blocked _ _ _ _ Hpc He Hs)
      as (Hpca & Hfa & Hta & Hpa).
    destruct (IH _ _ _ Hpca Hes Hr) as (Hpcb & Hfb & Htb & Hpb).
    split; [exact Hpcb|]. split; [congruence|].
    split; [apply main_silent_app; assumption|].
    intros k v Hv. destruct (Hpa _ _ Hv) as [Hva|(s & Hin)].
    + destruct (Hpb _ _ Hva) as [Hvb|(s & Hin)]; [left; exact Hvb|].
      right. exists s. apply in_or_app. right. exact Hin.
    + right. exists s. apply in_or_app. left. exact Hin.
Qed.

(** C10.  The sweep of idle peers is part of the top of an iteration of
    the main loop, and the top is reached only on entry to the loop or
    after the read of the public socket has returned:
    - a [Close] by the main goroutine happens only in the step [MainTop];
    - a step leads to the top only if it is the entry to the loop, or a
      return of the read, or the goroutine was there already;
    - while the main goroutine is blocked in the read, whatever else
      happens, it stays there and does nothing: no peer is evicted by the
      sweep and no socket is closed by it; a record can only be deleted by
      its own per-peer goroutine;
    - any amount of time can pass in that state, and only the clock
      changes. *)
Theorem C10_sweep_waits_for_read :
  (∀ w e w' t s,
     step w e = Some (w', t) → In (Main, Close s) t → e = MainTop)
  ∧ (∀ w e w' t,
       step w e = Some (w', t) → pc w' = AtTop →
       pc w = AtTop ∨ e = MainWake ∨ ∃ r ok, e = MainRead r ok)
  ∧ (∀ w es w' t,
       pc w = InRecv → Forall (λ e, is_main_read e = false) es →
       run w es = Some (w', t) →
       pc w' = InRecv ∧ flushTime w' = flushTime w ∧ main_silent t
       ∧ ∀ k v, peers w !! k = Some v →
           peers w' !! k = Some v ∨ ∃ s, In (PeerTask s, PeersDelete k) t)
  ∧ (∀ w d,
       pc w = InRecv → 0 ≤ d →
       step w (Elapse d) = Some (set_clock w (clock w + d), [])).
Proof.
  split; [|split; [|split]].
  - intros w e w' t s H Hin.
    destruct (server_step_main_acts _ _ _ _ _ H Hin) as [He|(r & ok & ->)];
      [exact He|exfalso].
    unfold step in H. case_bool_decide; [discriminate|].
    case_bool_decide; [|discriminate]. simplify_eq.
    unfold main_read in H.
    repeat case_match; simplify_eq; simpl in Hin;
      repeat (destruct Hin as [Hin|Hin]; [discriminate|]); destruct Hin.
  - intros w e w' t H Hat.
    pose proof (server_step_pc _ _ _ _ H) as Hstep.
    destruct e; try (left; congruence); [right; left; reflexivity| |eauto].
    destruct Hstep as [_ Hin]. congruence.
  - intros w es w' t. apply server_run_blocked.
  - intros w d Hpc Hd. unfold step, elapse. rewrite Hpc.
    apply Z.leb_le in Hd. rewrite Hd. reflexivity.
Qed.

(** The peer of S4, idle for an hour: as long as the read of the public
    socket does not return, the peer is still there. *)
Lemma C10_sweep_waits_for_read_witness :
  let w := after Scenario.server0 Scenario.S4_events in
  let w' := after w [Elapse (3600 * second); KeepalivePass 0] in
  pc w' = InRecv
  ∧ peers w' !! newAddrKey Scenario.peerK = Some {| c := 0; last := second |}
  ∧ flushInterval < clock w' - second.
Proof.
  intros w w'.
  destruct C10_sweep_waits_for_read as (_ & _ & Hblocked & _).
  destruct (Hblocked w [Elapse (3600 * second); KeepalivePass 0] w'
              (output w [Elapse (3600 * second); KeepalivePass 0]))
    as (Hpc & _ & _ & Hpeers).
  - reflexivity.
  - repeat constructor.
  - vm_compute. reflexivity.
  - split; [exact Hpc|]. split; [|vm_compute; reflexivity].
    destruct (Hpeers (newAddrKey Scenario.peerK) {| c := 0; last := second |})
      as [Hv|(s & Hin)].
    + vm_compute. reflexivity.
    + exact Hv.
    + exfalso. vm_compute in Hin.
      repeat (destruct Hin as [Hin|Hin]; [discriminate|]). destruct Hin.
Defined.

End ServerPeers.

(** * The server: the keepalive loop and fatal errors *)

Section ServerKeepalive.

Import Server.

Lemma punch_all_In (m : gmap addrKey Z) (k : addrKey) :
  In (punch_to k) (punch_all m) ↔ is_Some (m !! k).
Proof.
  unfold punch_all, punch_to. rewrite in_map_iff. split.
  - intros ([j v] & Heq & Hin). simpl in Heq.
    assert (j = k) as -> by (apply toUDP_inj; congruence).
    apply list_elem_of_In, elem_of_map_to_list in Hin. eauto.
  - intros [v Hv]. exists (k, v). split; [reflexivity|].
    apply list_elem_of_In, elem_of_map_to_list. exact Hv.
Qed.

(** The punches of an iteration of the keepalive loop are those to the
    endpoints of the table it iterates over. *)
Lemma keepalive_pass_punches w busy w' t k :
  step w (KeepalivePass busy) = Some (w', t) →
  In (punch_to k) t ↔ is_Some (mappings w' !! k).
Proof.
  intros H. unfold step in H. case_bool_decide; [discriminate|].
  unfold keepalive_pass in H. case_match; [|discriminate]. simplify_eq.
  simpl. rewrite <- punch_all_In. split.
  - intros [Hin|Hin]; [discriminate|].
    apply in_app_or in Hin as [Hin|Hin]; [exact Hin|].
    case_match; [destruct Hin as [Hin|[]]; discriminate|destruct Hin].
  - intros Hin. right. apply in_or_app. left. exact Hin.
Qed.

(** C5, as stated, fails.  The keepalive loop runs every 500 ms from time
    0 and the relay announces 198.51.100.9:10000 at 0.6 s.  The iteration
    at 10.5 s sweeps and keeps the entry, 9.9 s old.  In the iteration at
    11 s the entry is 10.4 s old, no sweep is due, and the endpoint is sent
    a punch. *)
Lemma C5_stale_mapping_punched :
  ∃ w tr w' t v,
    run Scenario.server0 Scenario.until_11s = Some (w, tr)
    ∧ step w (KeepalivePass 0) = Some (w', t)
    ∧ mappings w !! newAddrKey Scenario.peerK = Some v
    ∧ flushInterval < clock w - v
    ∧ In (punch_to (newAddrKey Scenario.peerK)) t.
Proof.
  exists (after Scenario.server0 Scenario.until_11s),
         (output Scenario.server0 Scenario.until_11s).
  eexists _, _, (600 * millisecond).
  split; [vm_compute; reflexivity|].
  split; [vm_compute; reflexivity|].
  split; [vm_compute; reflexivity|].
  split; [vm_compute; reflexivity|].
  vm_compute. right. left. reflexivity.
Qed.

(** C5 (amended).  An iteration of the keepalive loop sweeps only when it
    starts more than 10 s after the previous sweep (or after the start of
    the loop).  Then the endpoints it punches are exactly those whose entry
    is at most 10 s old.  Otherwise it does not sweep and punches every
    endpoint of the table. *)
Theorem C5_sweep_when_due w busy w' t :
  step w (KeepalivePass busy) = Some (w', t) →
  (flushInterval < clock w - ka_flushTime w →
     ka_flushTime w' = clock w
     ∧ ∀ k, In (punch_to k) t
            ↔ ∃ v, mappings w !! k = Some v ∧ clock w - v ≤ flushInterval)
  ∧ (clock w - ka_flushTime w ≤ flushInterval →
     ka_flushTime w' = ka_flushTime w ∧ mappings w' = mappings w
     ∧ ∀ k, In (punch_to k) t ↔ is_Some (mappings w !! k)).
Proof.
  intros H.
  pose proof (λ k, keepalive_pass_punches w busy w' t k H) as Hpunch.
  unfold step in H. case_bool_decide; [discriminate|].
  unfold keepalive_pass in H. case_match; [|discriminate]. simplify_eq.
  simpl in *. split; intros Hdue.
  - rewrite bool_decide_eq_true_2 in * by exact Hdue.
    split; [reflexivity|]. intros k. rewrite Hpunch.
    unfold sweep_mappings, is_Some. split.
    + intros [v Hv]. apply map_lookup_filter_Some in Hv as [Hv Hfresh].
      simpl in Hfresh. exists v. split; [exact Hv|lia].
    + intros (v & Hv & Hfresh). exists v.
      apply map_lookup_filter_Some. split; [exact Hv|]. simpl. lia.
  - rewrite bool_decide_eq_false_2 in * by lia.
    split; [reflexivity|]. split; [reflexivity|]. exact Hpunch.
Qed.

(** The iteration at 10.5 s of the scenario above is a sweeping one: the
    entry is 9.9 s old and is punched. *)
Lemma C5_sweep_when_due_witness :
  let w := after Scenario.server0
             (Scenario.announced_at_600ms ++ Scenario.passes 18
                ++ [Elapse tick]) in
  In (punch_to (newAddrKey Scenario.peerK)) (output w [KeepalivePass 0])
  ↔ ∃ v, mappings w !! newAddrKey Scenario.peerK = Some v
         ∧ clock w - v ≤ flushInterval.
Proof.
  intros w.
  destruct (C5_sweep_when_due w 0 (after w [KeepalivePass 0])
              (output w [KeepalivePass 0])) as [Hdue _].
  - vm_compute. reflexivity.
  - apply Hdue. vm_compute. reflexivity.
Defined.

End ServerKeepalive.

Section FatalErrors.

Import Server.

Lemma server_main_read_new_peer_fatal w payload addr :
  addr ≠ relayAddr w → peers w !! newAddrKey addr = None →
  main_read w (RecvOk payload addr) false
  = (set_main w Exited (read_into (buffer w) 1 payload) (peers w)
       (flushTime w),
     [(Main, Stdout (NewPeerConnected (IP addr))); (Main, Fatal)]).
Proof.
  intros Hrelay Hnew. unfold main_read.
  assert ((length (buffer w) - 1 <? read_n (buffer w) 1 payload)%nat = false)
    as ->.
  { apply Nat.ltb_ge. apply read_n_le. }
  rewrite (sameAddr_ne _ _ Hrelay), Hnew. reflexivity.
Qed.






End FatalErrors.

(** * Datagrams of the relay *)

Section RelayFrames.

Lemma client_learn_wrong_size w payload :
  length payload ≠ 2%nat → (length payload ≤ bufferSize)%nat →
  length (Client.buffer w) = bufferSize →
  Client.learn w (RecvOk payload (Client.relayAddr w))
  = (Client.set_buffer w (read_into (Client.buffer w) 0 payload),
     [(Client.Main, Stderr (WrongSizeFromRelay (Z.of_nat (length payload))))]).
Proof.
  intros Hn Hfit Hlen. unfold Client.learn.
  rewrite sameAddr_refl, read_n_payload by lia. simpl.
  assert ((Z.of_nat (length payload) =? 2) = false) as ->
    by (apply Z.eqb_neq; lia).
  reflexivity.
Qed.

Lemma client_forward_relay w payload :
  Client.forward w (RecvOk payload (Client.relayAddr w))
  = (Client.set_buffer w (read_into (Client.buffer w) 1 payload), []).
Proof.
  unfold Client.forward.
  assert ((length (Client.buffer w) - 1
           <? read_n (Client.buffer w) 1 payload)%nat = false) as ->.
  { apply Nat.ltb_ge. apply read_n_le. }
  rewrite sameAddr_refl. reflexivity.
Qed.

Lemma server_relay_read_wrong_size w payload :
  Server.wrong_size (length payload) = true → (length payload ≤ bufferSize)%nat →
  length (Server.relay_buffer w) = bufferSize →
  Server.relay_read w (RecvOk payload (Server.relayAddr w))
  = (Server.set_relay w (Server.mappings w) true (Server.ipReceived w)
       (read_into (Server.relay_buffer w) 0 payload),
     [(Server.RelayReceive,
       Stderr (WrongSizeFromRelay (Z.of_nat (length payload))))]).
Proof.
  intros Hws Hfit Hlen. unfold Server.relay_read.
  rewrite sameAddr_refl, read_n_payload by lia. simpl.
  rewrite Hws. reflexivity.
Qed.

Lemma server_main_read_relay w payload ok :
  Server.main_read w (RecvOk payload (Server.relayAddr w)) ok
  = (Server.set_main w Server.AtTop
       (read_into (Server.buffer w) 1 payload) (Server.peers w)
       (Server.flushTime w), []).
Proof.
  unfold Server.main_read.
  assert ((length (Server.buffer w) - 1
           <? read_n (Server.buffer w) 1 payload)%nat = false) as ->.
  { apply Nat.ltb_ge. apply read_n_le. }
  rewrite sameAddr_refl. reflexivity.
Qed.

(** C8, as stated, fails: the client of S1 has learnt the port; a
    three-byte datagram from the relay is then dropped without a line on
    standard error. *)
Lemma C8_late_relay_datagram_unreported :
  ∃ w w' t,
    Client.reachable w
    ∧ Client.step w (Client.Read (RecvOk [1; 2; 3] (Client.relayAddr w)))
      = Some (w', t)
    ∧ ∀ a l, ¬ In (a, Stderr l) t.
Proof.
  exists (Client.after Scenario.client0 Scenario.S1_events).
  eexists _, [].
  split.
  { apply (client_reachable_after Scenario.os 34000 0); [reflexivity|].
    vm_compute. eexists; reflexivity. }
  split; [vm_compute; reflexivity|].
  intros a l [].
Qed.

(** C8 (amended).  For a datagram of the relay endpoint that fits the
    buffer:
    - a client that has not learnt the port, reading a datagram whose
      length is not 2, writes the wrong-size line and changes nothing but
      its buffer; a client that has learnt the port drops the datagram,
      whatever its length, without a line;
    - a server whose relay receive loop is running, reading a datagram
      whose length is below 4 or not 4 modulo 6, writes the wrong-size line
      and changes nothing but the buffer of that loop; the main loop of the
      server drops the datagram, whatever its length, without a line, and
      goes back to the top of its loop. *)
Theorem C8_relay_datagrams :
  (∀ w payload,
     Client.reachable w → (length payload ≤ bufferSize)%nat →
     (Client.at_phase w = Client.Learning → length payload ≠ 2%nat →
      Client.step w (Client.Read (RecvOk payload (Client.relayAddr w)))
      = Some (Client.set_buffer w (read_into (Client.buffer w) 0 payload),
              [(Client.Main,
                Stderr (WrongSizeFromRelay (Z.of_nat (length payload))))]))
     ∧ (Client.at_phase w = Client.Forwarding →
        Client.step w (Client.Read (RecvOk payload (Client.relayAddr w)))
        = Some (Client.set_buffer w (read_into (Client.buffer w) 1 payload),
                [])))
  ∧ (∀ w payload,
       Server.reachable w → (length payload ≤ bufferSize)%nat →
       (Server.relay_alive w = true → Server.pc w ≠ Server.Exited →
        Server.wrong_size (length payload) = true →
        Server.step w (Server.RelayRead (RecvOk payload (Server.relayAddr w)))
        = Some (Server.set_relay w (Server.mappings w)
                  (Server.relay_alive w) (Server.ipReceived w)
                  (read_into (Server.relay_buffer w) 0 payload),
                [(Server.RelayReceive,
                  Stderr (WrongSizeFromRelay (Z.of_nat (length payload))))]))
       ∧ (Server.pc w = Server.InRecv → ∀ ok,
          Server.step w
            (Server.MainRead (RecvOk payload (Server.relayAddr w)) ok)
          = Some (Server.set_main w Server.AtTop
                    (read_into (Server.buffer w) 1 payload)
                    (Server.peers w) (Server.flushTime w), []))).
Proof.
  split.
  - intros w payload Hreach Hfit.
    destruct (client_reachable_inv _ Hreach) as (Hlen & _).
    split; intros Hph.
    + intros Hn. unfold Client.step. rewrite Hph.
      rewrite client_learn_wrong_size by assumption. reflexivity.
    + unfold Client.step. rewrite Hph, client_forward_relay. reflexivity.
  - intros w payload Hreach Hfit.
    destruct (server_reachable_inv _ Hreach) as (_ & Hrb & _).
    split.
    + intros Halive Hlive Hws. unfold Server.step.
      rewrite bool_decide_eq_false_2 by exact Hlive.
      rewrite Halive, server_relay_read_wrong_size by assumption.
      reflexivity.
    + intros Hpc ok. rewrite (server_step_main_read _ _ _ Hpc).
      rewrite server_main_read_relay. reflexivity.
Qed.

(** A three-byte datagram of the relay read by a client that waits for its
    port, and by a server that waits for its address. *)
Lemma C8_relay_datagrams_witness :
  Client.step Scenario.client0 (Client.Read (RecvOk [1; 2; 3] Scenario.relay))
  = Some (Client.set_buffer Scenario.client0
            (read_into newBuffer 0 [1; 2; 3]),
          [(Client.Main, Stderr (WrongSizeFromRelay 3))])
  ∧ Server.step Scenario.server0
      (Server.RelayRead (RecvOk [1; 2; 3] Scenario.relay))
    = Some (Server.set_relay Scenario.server0 ∅ true false
              (read_into newBuffer 0 [1; 2; 3]),
            [(Server.RelayReceive, Stderr (WrongSizeFromRelay 3))]).
Proof.
  destruct C8_relay_datagrams as [Hclient Hserver].
  split.
  - apply (Hclient Scenario.client0 [1; 2; 3]).
    + exists Scenario.os, 34000, 0, Scenario.client0, [], [].
      split; reflexivity.
    + unfold bufferSize. simpl. lia.
    + reflexivity.
    + discriminate.
  - apply (Hserver Scenario.server0 [1; 2; 3]).
    + exists Scenario.os, 7000, 0, Scenario.server0, [], [].
      split; reflexivity.
    + unfold bufferSize. simpl. lia.
    + reflexivity.
    + discriminate.
    + reflexivity.
Defined.

End RelayFrames.

(** * What the code does against its purpose *)

Section Defects.

Import Server.

(** After the first frame of a right size the relay receive loop has left
    by [break], and no step adds to the mapping table any more. *)
Lemma server_mappings_only_shrink w e w' t :
  relay_alive w = false → step w e = Some (w', t) →
  relay_alive w' = false ∧ mappings w' ⊆ mappings w.
Proof.
  intros Halive H. unfold step in H. case_bool_decide; [discriminate|].
  destruct e as [d|busy|r| | |r ok|s r].
  - unfold elapse in H. case_match; simplify_eq. auto.
  - unfold keepalive_pass in H. case_match; [|discriminate]. simplify_eq.
    simpl. split; [exact Halive|].
    case_bool_decide; [apply map_filter_subseteq|reflexivity].
  - rewrite Halive in H. discriminate.
  - unfold main_wake in H. case_match; simplify_eq. auto.
  - case_bool_decide; [|discriminate]. simplify_eq.
    unfold main_top in H. case_bool_decide; simplify_eq; auto.
  - case_bool_decide; [|discriminate]. simplify_eq.
    unfold main_read in H. repeat case_match; simplify_eq; auto.
  - destruct (tasks w !! s) as [tk|]; [|discriminate].
    case_match; [|discriminate]. simplify_eq.
    unfold task_read in H. repeat case_match; simplify_eq; auto.
Qed.

(** C1 at S3.  The server of S2 has read the first reply of the relay and
    is in its main loop.  The relay receive loop is over, so the frame that
    announces 198.51.100.9:10000, a frame of a right size, is read by the
    main loop, which drops it: the mapping table does not contain
    198.51.100.9:10000.  Had the same frame been the first one, the record
    would be there. *)
Theorem C1_later_relay_frame_dropped :
  let w := after Scenario.server0 Scenario.S3_events in
  run Scenario.server0 Scenario.S3_events
  = Some (w, output Scenario.server0 Scenario.S3_events)
  ∧ wrong_size (length Scenario.peer_frame) = false
  ∧ relay_alive (after Scenario.server0 Scenario.S2_events) = false
  ∧ step (after Scenario.server0 Scenario.S2_events)
         (RelayRead (RecvOk Scenario.peer_frame Scenario.relay)) = None
  ∧ mappings w !! newAddrKey Scenario.peerK = None
  ∧ mappings (after Scenario.server0 Scenario.announced_at_600ms)
      !! newAddrKey Scenario.peerK = Some (600 * millisecond).
Proof.
  intros w.
  split; [vm_compute; reflexivity|].
  split; [vm_compute; reflexivity|].
  split; [vm_compute; reflexivity|].
  split; [vm_compute; reflexivity|].
  split; vm_compute; reflexivity.
Qed.

(** C2 on a peer that comes back.  K is given socket 0 and goes idle; the
    sweep evicts it and closes socket 0; the next datagram read is from K,
    which is given socket 2; then the goroutine of socket 0 sees its read
    fail, finds a record under its key, closes socket 0 again, before
    deleting, and deletes the record of socket 2.  Socket 0 is closed
    twice, once by each party; socket 2 is open and has no record. *)
Theorem C2_socket_closed_by_both :
  let w := after Scenario.server0 Scenario.evict_and_return in
  let t := output Scenario.server0 Scenario.evict_and_return in
  run Scenario.server0 Scenario.evict_and_return = Some (w, t)
  ∧ In (Main, Close (Loopback 0)) t
  ∧ In (PeerTask 0, Close (Loopback 0)) t
  ∧ close_count 0 t = 2%nat
  ∧ (∃ t0, t = t0 ++ [(PeerTask 0, Stderr (PeerReadFailed Scenario.peerK));
                      (PeerTask 0, Close (Loopback 0));
                      (PeerTask 0, PeersDelete (newAddrKey Scenario.peerK))])
  ∧ peers w !! newAddrKey Scenario.peerK = None
  ∧ is_Some (tasks w !! 2%nat)
  ∧ close_count 2 t = 0%nat.
Proof.
  intros w t.
  split; [vm_compute; reflexivity|].
  split; [vm_compute; auto 20|].
  split; [vm_compute; auto 20|].
  split; [vm_compute; reflexivity|].
  split.
  { exists (take 9 t). vm_compute. reflexivity. }
  split; [vm_compute; reflexivity|].
  split; [vm_compute; eexists; reflexivity|].
  vm_compute. reflexivity.
Qed.

End Defects.

(** * The server: peers, goroutines and sockets *)

Section ServerTables.

Import Server.

Lemma server_start_tables s p now w : start s p now = Some w → tables_inv w.
Proof.
  unfold start. intros H. repeat case_match; simplify_eq.
  unfold tables_inv. simpl. split; [|split].
  - intros k v Hv. rewrite lookup_empty in Hv. discriminate.
  - intros s' t Ht. rewrite lookup_empty in Ht. discriminate.
  - intros s' Hin. apply elem_of_nil in Hin. destruct Hin.
Qed.

Lemma server_step_tables w e w' t :
  tables_inv w → step w e = Some (w', t) → tables_inv w'.
Proof.
  intros (Hpeers & Htasks & Hclosed) H.
  unfold step in H. case_bool_decide as Hex; [discriminate|].
  destruct e as [d|busy|r| | |r ok|s r].
  - unfold elapse in H. case_match; simplify_eq. split; [|split]; assumption.
  - unfold keepalive_pass in H. case_match; simplify_eq.
    split; [|split]; assumption.
  - destruct (relay_alive w); [|discriminate]. simplify_eq.
    unfold relay_read in H.
    repeat case_match; simplify_eq; (split; [|split]); assumption.
  - unfold main_wake in H. case_match; simplify_eq.
    split; [|split]; simpl; [|assumption..].
    intros k v Hv. rewrite lookup_empty in Hv. discriminate.
  - case_bool_decide; [|discriminate]. simplify_eq.
    unfold main_top in H.
    case_bool_decide; simplify_eq; [|split; [|split]; assumption].
    split; [|split]; simpl.
    + intros k v Hv. apply map_lookup_filter_Some in Hv as [Hv Hkeep].
      destruct (Hpeers _ _ Hv) as (tk & Htk & Hkey & Hopen).
      exists tk. split; [exact Htk|]. split; [exact Hkey|].
      rewrite elem_of_app. intros [Hin|Hin]; [exact (Hopen Hin)|].
      apply list_elem_of_fmap in Hin as ([k' v'] & Hc & Hin).
      apply elem_of_map_to_list, map_lookup_filter_Some in Hin
        as [Hv' Hgone].
      simpl in Hc.
      destruct (Hpeers _ _ Hv') as (tk' & Htk' & Hkey' & _).
      rewrite <- Hc in Htk'. simplify_eq; try exact (Hkeep Hgone).
    + exact Htasks.
    + intros s Hin. apply elem_of_app in Hin as [Hin|Hin];
        [exact (Hclosed _ Hin)|].
      apply list_elem_of_fmap in Hin as ([k' v'] & -> & Hin).
      apply elem_of_map_to_list, map_lookup_filter_Some in Hin as [Hv' _].
      destruct (Hpeers _ _ Hv') as (tk' & Htk' & _).
      exact (proj1 (Htasks _ _ Htk')).
  - case_bool_decide; [|discriminate]. simplify_eq.
    destruct r as [|payload addr]; unfold main_read in H.
    { simplify_eq. split; [|split]; assumption. }
    case_match; [simplify_eq; split; [|split]; assumption|].
    case_match; [simplify_eq; split; [|split]; assumption|].
    destruct (peers w !! newAddrKey addr) as [v|] eqn:Hv.
    + simplify_eq. split; [|split]; simpl; [|assumption..].
      intros k v' Hv'. apply lookup_insert_Some in Hv' as [[<- <-]|[_ Hv']].
      * simpl. exact (Hpeers _ _ Hv).
      * exact (Hpeers _ _ Hv').
    + destruct ok; simplify_eq; [|split; [|split]; assumption].
      split; [|split]; simpl.
      * intros k v' Hv'. apply lookup_insert_Some in Hv' as [[<- <-]|[_ Hv']].
        -- simpl. eexists. rewrite lookup_insert_eq.
           split; [reflexivity|]. split; [reflexivity|].
           intros Hin. apply Hclosed in Hin. lia.
        -- destruct (Hpeers _ _ Hv') as (tk & Htk & Hkey & Hopen).
           exists tk. split; [|auto].
           rewrite lookup_insert_ne; [exact Htk|].
           pose proof (proj1 (Htasks _ _ Htk)). lia.
      * intros s tk Htk.
        apply lookup_insert_Some in Htk as [[<- <-]|[_ Htk]].
        -- simpl. split; [lia|reflexivity].
        -- destruct (Htasks _ _ Htk) as [Hlt Hkey]. split; [lia|exact Hkey].
      * intros s Hin. apply Hclosed in Hin. lia.
  - destruct (tasks w !! s) as [tk|] eqn:Htk; [|discriminate].
    case_match; [|discriminate]. simplify_eq.
    destruct r as [|payload addr]; unfold task_read in H.
    + destruct (peers w !! t_key tk) as [v|] eqn:Hv; simplify_eq;
        (split; [|split]); simpl.
      * intros k v' Hv'. apply lookup_delete_Some in Hv' as [Hne Hv'].
        destruct (Hpeers _ _ Hv') as (tk' & Htk' & Hkey' & Hopen).
        assert (c v' ≠ s) as Hs
          by (intros Heq; rewrite Heq in Htk'; simplify_eq; congruence).
        exists tk'. split; [rewrite lookup_delete_ne by congruence;
                             exact Htk'|].
        split; [exact Hkey'|].
        rewrite elem_of_app, list_elem_of_singleton. intros [Hin|Hin];
          [exact (Hopen Hin)|exact (Hs Hin)].
      * intros s' tk' Htk'. apply lookup_delete_Some in Htk' as [_ Htk'].
        exact (Htasks _ _ Htk').
      * intros s' Hin. apply elem_of_app in Hin as [Hin|Hin];
          [exact (Hclosed _ Hin)|].
        apply list_elem_of_singleton in Hin as ->.
        exact (proj1 (Htasks _ _ Htk)).
      * intros k v' Hv'.
        destruct (Hpeers _ _ Hv') as (tk' & Htk' & Hkey' & Hopen).
        assert (c v' ≠ s) as Hs
          by (intros Heq; rewrite Heq in Htk'; simplify_eq; congruence).
        exists tk'. split; [rewrite lookup_delete_ne by congruence;
                             exact Htk'|].
        auto.
      * intros s' tk' Htk'. apply lookup_delete_Some in Htk' as [_ Htk'].
        exact (Htasks _ _ Htk').
      * exact Hclosed.
    + assert (∀ b, tables_inv
                     (set_socks w (<[s := set_task_buffer tk b]> (tasks w))
                                (next_sock w) (closed w))) as Hset.
      { intros b. split; [|split]; simpl.
        - intros k v' Hv'.
          destruct (Hpeers _ _ Hv') as (tk' & Htk' & Hkey' & Hopen).
          destruct (decide (c v' = s)) as [Heq|Hne].
          + rewrite Heq in *. simplify_eq. eexists.
            rewrite lookup_insert_eq. split; [reflexivity|]. auto.
          + exists tk'. rewrite lookup_insert_ne by congruence. auto.
        - intros s' tk' Htk'.
          apply lookup_insert_Some in Htk' as [[<- <-]|[_ Htk']].
          + exact (Htasks _ _ Htk).
          + exact (Htasks _ _ Htk').
        - exact Hclosed. }
      case_match; simplify_eq; apply Hset.
Qed.

Lemma server_run_tables es : ∀ w w' t,
  tables_inv w → run w es = Some (w', t) → tables_inv w'.
Proof.
  induction es as [|e es IH]; intros w w' t Hinv H; simpl in H.
  - simplify_eq. exact Hinv.
  - destruct (step w e) as [[w1 t1]|] eqn:Hs; [|discriminate].
    destruct (run w1 es) as [[w2 t2]|] eqn:Hr; [|discriminate].
    simplify_eq. eapply IH; [|exact Hr]. eapply server_step_tables; eauto.
Qed.

Lemma server_reachable_tables w : reachable w → tables_inv w.
Proof.
  intros (s & p & now & w0 & es & t & Hs & Hr).
  eapply server_run_tables; [|exact Hr]. eapply server_start_tables; eauto.
Qed.

End ServerTables.

(** * The server: the data plane *)

Section ServerDataPlane.

Import Server.

Lemma S4_reachable : reachable (after Scenario.server0 Scenario.S4_events).
Proof.
  apply (server_reachable_after Scenario.os 7000 0); [reflexivity|].
  vm_compute. eexists; reflexivity.
Qed.



(** X2.  The first datagram of an endpoint that is neither the relay nor in the
    peers table, when a socket can be opened: the endpoint gets a record with a
    socket never used before and the current time, a goroutine is started on
    that socket for that endpoint, and the datagram itself is written nowhere,
    whatever it holds. *)
Theorem server_new_peer w addr payload :
  reachable w → pc w = InRecv →
  addr ≠ relayAddr w → peers w !! newAddrKey addr = None →
  ∃ w',
    step w (MainRead (RecvOk payload addr) true)
    = Some (w', [(Main, Stdout (NewPeerConnected (IP addr)))])
    ∧ peers w'
      = <[newAddrKey addr := {| c := next_sock w; last := clock w |}]>
          (peers w)
    ∧ tasks w'
      = <[next_sock w := {| t_key := newAddrKey addr; t_addr := addr;
                            t_buffer := newBuffer |}]> (tasks w)
    ∧ (tasks w !! next_sock w = None)
    ∧ (next_sock w ∉ closed w)
    ∧ (∀ k v, peers w !! k = Some v → c v ≠ next_sock w)
    ∧ next_sock w' = S (next_sock w) ∧ closed w' = closed w
    ∧ pc w' = AtTop.
Proof.
  intros Hreach Hpc Hne Hnew.
  destruct (server_reachable_tables _ Hreach) as (Hpeers & Htasks & Hclosed).
  rewrite (server_step_main_read _ _ _ Hpc). unfold main_read.
  assert ((length (buffer w) - 1 <? read_n (buffer w) 1 payload)%nat = false)
    as ->.
  { apply Nat.ltb_ge. apply read_n_le. }
  rewrite (sameAddr_ne _ _ Hne), Hnew.
  eexists. split; [reflexivity|]. simpl.
  split; [reflexivity|]. split; [reflexivity|].
  split.
  { destruct (tasks w !! next_sock w) as [tk|] eqn:Htk; [|reflexivity].
    pose proof (proj1 (Htasks _ _ Htk)). lia. }
  split; [intros Hin; apply Hclosed in Hin; lia|].
  split; [|auto].
  intros k v Hv Heq.
  destruct (Hpeers _ _ Hv) as (tk & Htk & _).
  pose proof (proj1 (Htasks _ _ Htk)). lia.
Qed.

(** S3: the first datagram of 198.51.100.77:20000, though tagged as data,
    only makes the peer known. *)
Lemma server_new_peer_witness :
  let w := after Scenario.server0 Scenario.S4_events in
  ∃ w',
    step w (MainRead (RecvOk [0xCC; 104; 105] Scenario.peerJ) true)
    = Some (w', [(Main, Stdout (NewPeerConnected (198, 51, 100, 77)))])
    ∧ peers w' !! newAddrKey Scenario.peerJ
      = Some {| c := 1; last := second |}.
Proof.
  intros w.
  destruct (server_new_peer w Scenario.peerJ [0xCC; 104; 105])
    as (w' & Hs & Hp & _).
  - exact S4_reachable.
  - reflexivity.
  - vm_compute. discriminate.
  - vm_compute. reflexivity.
  - exists w'. split; [exact Hs|]. rewrite Hp. vm_compute. reflexivity.
Defined.



End ServerDataPlane.

(** * The server: what the sweep of idle peers does *)

Section ServerSweep.

Import Server.

Lemma length_filter_unique {A} (P : A → Prop) `{∀ x, Decision (P x)}
    (l : list A) (x : A) :
  NoDup l → x ∈ l → P x → (∀ y, y ∈ l → P y → y = x) →
  length (filter P l) = 1%nat.
Proof.
  induction l as [|a l IH]; intros Hnd Hin HP Huniq.
  - apply elem_of_nil in Hin. destruct Hin.
  - apply NoDup_cons in Hnd as [Hnotin Hnd].
    rewrite filter_cons. apply elem_of_cons in Hin as [<-|Hin].
    + rewrite decide_True by exact HP. simpl. f_equal.
      destruct (filter P l) as [|y rest] eqn:Hf; [reflexivity|exfalso].
      assert (y ∈ filter P l) as Hy by (rewrite Hf; left).
      apply list_elem_of_filter in Hy as [HPy Hy].
      assert (y = x) as -> by (apply Huniq; [right; exact Hy|exact HPy]).
      exact (Hnotin Hy).
    + destruct (decide (P a)) as [HPa|HPa].
      * assert (a = x) as -> by (apply Huniq; [left|exact HPa]).
        exfalso. exact (Hnotin Hin).
      * apply IH; auto. intros y Hy HPy. apply Huniq; [right; exact Hy|exact HPy].
Qed.

Lemma close_count_evictions s (l : list (addrKey * addrValue)) :
  close_count s (concat (evict <$> l))
  = length (filter (λ kv : addrKey * addrValue, c kv.2 = s) l).
Proof.
  unfold close_count. induction l as [|kv l IH]; [reflexivity|].
  rewrite fmap_cons, concat_cons. unfold evict at 1.
  cbn [app filter list_filter snd].
  rewrite decide_False by discriminate.
  rewrite decide_False by discriminate.
  destruct (decide (c kv.2 = s)) as [Heq|Hne].
  - rewrite decide_True by (rewrite Heq; reflexivity).
    cbn [length]. f_equal. exact IH.
  - rewrite decide_False by congruence. exact IH.
Qed.

(** X4.  The top of an iteration of the main loop, in a server run.  When more
    than 10 s have passed since the last sweep, the records that stay are
    exactly those used in the last 10 s; for every other record the loop prints
    the timeout line, deletes the record and then closes its socket, in this
    order and once; it closes no other socket.  Otherwise nothing changes.  In
    both cases the goroutine goes on to its read. *)
Theorem server_sweep_effect w w' t :
  reachable w → step w MainTop = Some (w', t) →
  (flushInterval < clock w - flushTime w →
     flushTime w' = clock w
     ∧ (∀ k v, peers w' !! k = Some v
               ↔ peers w !! k = Some v ∧ clock w - last v ≤ flushInterval)
     ∧ (∀ k v, peers w !! k = Some v → flushInterval < clock w - last v →
          close_count (c v) t = 1%nat ∧ c v ∈ closed w'
          ∧ ∃ t1 t2, t = t1 ++ [(Main, Stdout (PeerTimeout (ip k)));
                                (Main, PeersDelete k);
                                (Main, Close (Loopback (c v)))] ++ t2)
     ∧ (∀ s, In (Main, Close (Loopback s)) t →
          ∃ k v, peers w !! k = Some v ∧ c v = s
                 ∧ flushInterval < clock w - last v))
  ∧ (clock w - flushTime w ≤ flushInterval →
     t = [] ∧ peers w' = peers w ∧ flushTime w' = flushTime w
     ∧ closed w' = closed w)
  ∧ pc w' = InRecv ∧ tasks w' = tasks w.
Proof.
  intros Hreach H.
  destruct (server_reachable_tables _ Hreach) as (Hpeers & _ & _).
  unfold step in H. case_bool_decide; [discriminate|].
  case_bool_decide; [|discriminate]. simplify_eq.
  unfold main_top in H. case_bool_decide as Hdue; simplify_eq; simpl.
  - split; [|split; [intros Hnot; lia|split; reflexivity]].
    intros _. split; [reflexivity|]. split; [|split].
    + intros k v. rewrite map_lookup_filter_Some. unfold timed_out. simpl.
      split; intros [Hv Hfresh]; (split; [exact Hv|lia]).
    + intros k v Hv Hidle.
      assert ((k, v) ∈ map_to_list (filter (timed_out (clock w)) (peers w)))
        as Hin.
      { apply elem_of_map_to_list, map_lookup_filter_Some.
        split; [exact Hv|exact Hidle]. }
      split; [|split].
      * rewrite close_count_evictions.
        apply (length_filter_unique _ _ (k, v));
          [apply NoDup_map_to_list|exact Hin|reflexivity|].
        intros [k' v'] Hin' Hc. simpl in Hc.
        apply elem_of_map_to_list, map_lookup_filter_Some in Hin'
          as [Hv' _].
        destruct (Hpeers _ _ Hv) as (tk & Htk & Hkey & _).
        destruct (Hpeers _ _ Hv') as (tk' & Htk' & Hkey' & _).
        rewrite Hc in Htk'. simplify_eq. reflexivity.
      * apply elem_of_app. right.
        apply list_elem_of_fmap. exists (k, v). split; [reflexivity|exact Hin].
      * apply list_elem_of_split in Hin as (l1 & l2 & ->).
        exists (concat (evict <$> l1)), (concat (evict <$> l2)).
        rewrite fmap_app, concat_app, fmap_cons, concat_cons.
        reflexivity.
    + intros s Hin. apply in_concat in Hin as (l & Hl & Hin).
      apply in_map_iff in Hl as ([k v] & <- & Hkv).
      apply list_elem_of_In, elem_of_map_to_list, map_lookup_filter_Some
        in Hkv as [Hv Hidle].
      unfold evict in Hin. simpl in Hin.
      destruct Hin as [Hin|[Hin|[Hin|[]]]]; simplify_eq.
      exists k, v. auto.
  - split; [intros Hyes; contradiction|]. split; [auto|]. split; reflexivity.
Qed.

(** S5: eleven seconds after its last datagram the peer of S4 is evicted by
    the sweep that follows the next read, and its socket is closed once. *)
Lemma server_sweep_effect_witness :
  let w := after Scenario.server0
             (Scenario.S4_events
                ++ [Elapse (11 * second);
                    MainRead (RecvOk [0xCD] Scenario.peerJ) true]) in
  close_count 0 (output w [MainTop]) = 1%nat
  ∧ peers (after w [MainTop]) !! newAddrKey Scenario.peerK = None.
Proof.
  intros w.
  destruct (server_sweep_effect w (after w [MainTop]) (output w [MainTop]))
    as (Hdue & _).
  - apply (server_reachable_after Scenario.os 7000 0); [reflexivity|].
    vm_compute. eexists; reflexivity.
  - vm_compute. reflexivity.
  - destruct (Hdue ltac:(vm_compute; reflexivity)) as (_ & _ & Hgone & _).
    destruct (Hgone (newAddrKey Scenario.peerK) {| c := 0; last := second |})
      as (Hcount & _).
    + vm_compute. reflexivity.
    + vm_compute. reflexivity.
    + split; [exact Hcount|]. vm_compute. reflexivity.
Defined.

End ServerSweep.

(** * The server: the cadence of the keepalive loop, and who owns what *)

Section ServerLoops.

Import Server.

(** What a step leaves as it is, by the goroutine that takes it. *)
Lemma server_step_frame w e w' t :
  step w e = Some (w', t) →
  relayAddr w' = relayAddr w ∧ arg_port w' = arg_port w
  ∧ match e with
    | Elapse d => w' = set_clock w (clock w + d)
    | KeepalivePass _ | RelayRead _ =>
        peers w' = peers w ∧ tasks w' = tasks w ∧ closed w' = closed w
        ∧ next_sock w' = next_sock w ∧ flushTime w' = flushTime w
        ∧ pc w' = pc w ∧ buffer w' = buffer w
    | MainWake | MainTop | MainRead _ _ | TaskRead _ _ =>
        mappings w' = mappings w ∧ ka_flushTime w' = ka_flushTime w
        ∧ ka_wake w' = ka_wake w ∧ clock w' = clock w
        ∧ relay_alive w' = relay_alive w ∧ ipReceived w' = ipReceived w
    end.
Proof.
  intros H. unfold step in H. case_bool_decide as Hex; [discriminate|].
  destruct e as [d|busy|r| | |r ok|s r].
  - unfold elapse in H. case_match; simplify_eq. auto.
  - unfold keepalive_pass in H. case_match; simplify_eq. simpl. auto 10.
  - destruct (relay_alive w); [|discriminate]. simplify_eq.
    unfold relay_read in H. repeat case_match; simplify_eq; simpl; auto 10.
  - unfold main_wake in H. case_match; simplify_eq. simpl. auto 10.
  - case_bool_decide; [|discriminate]. simplify_eq.
    unfold main_top in H. case_bool_decide; simplify_eq; simpl; auto 10.
  - case_bool_decide; [|discriminate]. simplify_eq.
    unfold main_read in H. repeat case_match; simplify_eq; simpl; auto 10.
  - destruct (tasks w !! s) as [tk|]; [|discriminate].
    case_match; [|discriminate]. simplify_eq.
    unfold task_read in H. repeat case_match; simplify_eq; simpl; auto 10.
Qed.

(** X5.  What each goroutine leaves alone: the keepalive loop and the relay
    receive loop do not touch the peers table, the per-peer goroutines or the
    sockets, nor where the main goroutine is; the main loop and the per-peer
    goroutines do not touch the mapping table nor the timing of the keepalive
    loop; the passing of time changes the clock only.  No step changes the
    relay endpoint or the port of the application. *)
Theorem server_goroutines_separate w e w' t :
  step w e = Some (w', t) →
  relayAddr w' = relayAddr w ∧ arg_port w' = arg_port w
  ∧ match e with
    | Elapse d => w' = set_clock w (clock w + d)
    | KeepalivePass _ | RelayRead _ =>
        peers w' = peers w ∧ tasks w' = tasks w ∧ closed w' = closed w
        ∧ next_sock w' = next_sock w ∧ flushTime w' = flushTime w
        ∧ pc w' = pc w ∧ buffer w' = buffer w
    | MainWake | MainTop | MainRead _ _ | TaskRead _ _ =>
        mappings w' = mappings w ∧ ka_flushTime w' = ka_flushTime w
        ∧ ka_wake w' = ka_wake w ∧ clock w' = clock w
        ∧ relay_alive w' = relay_alive w ∧ ipReceived w' = ipReceived w
    end.
Proof. apply server_step_frame. Qed.

(** The main loop reads a tagged datagram of a known peer: the mapping
    table of S3's first frame stays as it is. *)
Lemma server_goroutines_separate_witness :
  let w := after Scenario.server0 Scenario.S4_events in
  let e := MainRead (RecvOk [0xCC; 104; 105] Scenario.peerK) true in
  mappings (after w [e]) = mappings w ∧ ka_wake (after w [e]) = ka_wake w.
Proof.
  intros w e.
  destruct (server_goroutines_separate w e (after w [e]) (output w [e]))
    as (_ & _ & Hm & _ & Hk & _).
  - vm_compute. reflexivity.
  - split; [exact Hm|exact Hk].
Defined.

Lemma server_step_keeps_wake w e w' t :
  is_keepalive e = false → step w e = Some (w', t) →
  ka_wake w' = ka_wake w ∧ clock w ≤ clock w'.
Proof.
  intros He H.
  pose proof (server_step_frame _ _ _ _ H) as (_ & _ & Hsep).
  destruct e; try discriminate.
  - subst w'. simpl. split; [reflexivity|].
    unfold step in H. case_bool_decide; [discriminate|].
    unfold elapse in H. case_match eqn:Hd; [|discriminate].
    apply Z.leb_le in Hd. lia.
  - unfold step in H. case_bool_decide; [discriminate|].
    destruct (relay_alive w); [|discriminate]. simplify_eq.
    unfold relay_read in H. repeat case_match; simplify_eq; simpl; split;
      (reflexivity || lia).
  - destruct Hsep as (_ & _ & Hw & Hc & _). rewrite Hw, Hc. split; [auto|lia].
  - destruct Hsep as (_ & _ & Hw & Hc & _). rewrite Hw, Hc. split; [auto|lia].
  - destruct Hsep as (_ & _ & Hw & Hc & _). rewrite Hw, Hc. split; [auto|lia].
  - destruct Hsep as (_ & _ & Hw & Hc & _). rewrite Hw, Hc. split; [auto|lia].
Qed.

Lemma server_run_keeps_wake es : ∀ w w' t,
  Forall (λ e, is_keepalive e = false) es → run w es = Some (w', t) →
  ka_wake w' = ka_wake w ∧ clock w ≤ clock w'.
Proof.
  induction es as [|e es IH]; intros w w' t Hes H; simpl in H.
  - simplify_eq. split; [reflexivity|lia].
  - destruct (step w e) as [[w1 t1]|] eqn:Hs; [|discriminate].
    destruct (run w1 es) as [[w2 t2]|] eqn:Hr; [|discriminate].
    simplify_eq. apply Forall_cons in Hes as [He Hes].
    destruct (server_step_keeps_wake _ _ _ _ He Hs) as [Hw1 Hc1].
    destruct (IH _ _ _ Hes Hr) as [Hw2 Hc2].
    split; [congruence|lia].
Qed.

(** X6.  The cadence of the keepalive loop.  An iteration that starts at time
    [now] and lasts [busy] writes the announcement first, then one punch per
    endpoint of the mapping table, and sleeps [500 ms - busy] when that is
    positive, not at all otherwise.  Whatever else happens in between, the next
    iteration starts no earlier than [now] plus the larger of 500 ms and
    [busy]. *)
Theorem server_keepalive_cadence w b1 w1 t1 es w2 t2 b2 w3 t3 :
  step w (KeepalivePass b1) = Some (w1, t1) →
  Forall (λ e, is_keepalive e = false) es → run w1 es = Some (w2, t2) →
  step w2 (KeepalivePass b2) = Some (w3, t3) →
  t1 = (Keepalive, WriteToUDP Public (relayPayload (arg_port w)) (relayAddr w))
         :: punch_all (mappings w1)
         ++ (if 0 <? tick - b1 then [(Keepalive, Sleep (tick - b1))] else [])
  ∧ clock w + Z.max tick b1 ≤ clock w2.
Proof.
  intros H1 Hes Hr H3.
  destruct (server_run_keeps_wake _ _ _ _ Hes Hr) as [Hwake Hclock].
  unfold step in H1, H3.
  case_bool_decide; [discriminate|]. case_bool_decide; [discriminate|].
  unfold keepalive_pass in H1, H3.
  destruct ((ka_wake w <=? clock w) && (0 <=? b1)) eqn:Hc1; [|discriminate].
  destruct ((ka_wake w2 <=? clock w2) && (0 <=? b2)) eqn:Hc3; [|discriminate].
  apply andb_true_iff in Hc1 as [_ Hb1]. apply Z.leb_le in Hb1.
  apply andb_true_iff in Hc3 as [Hdue _]. apply Z.leb_le in Hdue.
  simplify_eq. simpl in *. split; [reflexivity|].
  rewrite Hwake in Hdue.
  destruct (0 <? tick - b1) eqn:Hd;
    [apply Z.ltb_lt in Hd|apply Z.ltb_ge in Hd]; lia.
Qed.

(** The iterations at 0 s and 0.5 s of the scenario of C5. *)
Lemma server_keepalive_cadence_witness :
  clock Scenario.server0 + Z.max tick 0
  ≤ clock (after Scenario.server0 [KeepalivePass 0; Elapse tick]).
Proof.
  destruct (server_keepalive_cadence Scenario.server0 0
              (after Scenario.server0 [KeepalivePass 0])
              (output Scenario.server0 [KeepalivePass 0])
              [Elapse tick]
              (after Scenario.server0 [KeepalivePass 0; Elapse tick]) []
              0
              (after Scenario.server0
                 [KeepalivePass 0; Elapse tick; KeepalivePass 0])
              (output (after Scenario.server0 [KeepalivePass 0; Elapse tick])
                 [KeepalivePass 0]))
    as [_ Hgap].
  - vm_compute. reflexivity.
  - repeat constructor.
  - vm_compute. reflexivity.
  - vm_compute. reflexivity.
  - exact Hgap.
Defined.

End ServerLoops.

(** * What the engine never does *)

Section Never.

(** A line about a datagram of a wrong size from a peer or from the game
    server. *)
Lemma client_step_no_oversize w e w' t a n :
  Client.step w e = Some (w', t) → ¬ In (a, Stderr (WrongSizeFromPeer n)) t.
Proof.
  intros H Hin. destruct e as [d| | |r]; simpl in H.
  - unfold Client.elapse in H. case_match; simplify_eq; destruct Hin.
  - unfold Client.relay_tick in H. case_match; simplify_eq.
    destruct Hin as [Hin|[Hin|[]]]; discriminate.
  - unfold Client.punch_tick in H. repeat case_match; simplify_eq.
    destruct Hin as [Hin|[Hin|[]]]; discriminate.
  - destruct (Client.at_phase w); simplify_eq.
    + unfold Client.learn in H.
      repeat case_match; simplify_eq; simpl in Hin;
        repeat (destruct Hin as [Hin|Hin]; [discriminate|]); destruct Hin.
    + destruct r as [|payload addr]; unfold Client.forward in H.
      { simplify_eq; destruct Hin. }
      assert ((length (Client.buffer w) - 1
               <? read_n (Client.buffer w) 1 payload)%nat = false) as Hfit.
      { apply Nat.ltb_ge. apply read_n_le. }
      rewrite Hfit in H.
      repeat case_match; simplify_eq; simpl in Hin;
        repeat (destruct Hin as [Hin|Hin]; [discriminate|]); destruct Hin.
Qed.

Lemma server_step_no_oversize w e w' t a n :
  Server.step w e = Some (w', t) →
  ¬ In (a, Stderr (WrongSizeFromPeer n)) t
  ∧ ¬ In (a, Stderr (WrongSizeFromGameServer n)) t.
Proof.
  intros H.
  assert (∀ l, l = WrongSizeFromPeer n ∨ l = WrongSizeFromGameServer n →
               ¬ In (a, Stderr l) t) as Hno; [|split; apply Hno; auto].
  intros l Hl Hin.
  unfold Server.step in H. case_bool_decide; [discriminate|].
  destruct e as [d|busy|r| | |r ok|s r].
  - unfold Server.elapse in H. case_match; simplify_eq; destruct Hin.
  - unfold Server.keepalive_pass in H. case_match; [|discriminate].
    simplify_eq. destruct Hin as [Hin|Hin]; [discriminate|].
    apply in_app_or in Hin as [Hin|Hin].
    + unfold Server.punch_all in Hin.
      apply in_map_iff in Hin as (y & Heq & _). discriminate.
    + case_match; [destruct Hin as [Hin|[]]; discriminate|destruct Hin].
  - destruct (Server.relay_alive w); [|discriminate]. simplify_eq.
    unfold Server.relay_read in H.
    repeat case_match; simplify_eq; simpl in Hin;
      repeat (destruct Hin as [Hin|Hin];
              [destruct Hl; simplify_eq|]);
      destruct Hin.
  - unfold Server.main_wake in H. case_match; simplify_eq; destruct Hin.
  - case_bool_decide; [|discriminate]. simplify_eq.
    unfold Server.main_top in H. case_bool_decide; simplify_eq;
      try (destruct Hin; fail).
    apply in_concat in Hin as (kvs & Hkvs & Hin).
    apply in_map_iff in Hkvs as (kv & <- & _).
    unfold Server.evict in Hin.
    repeat (destruct Hin as [Hin|Hin]; [discriminate|]).
    destruct Hin.
  - case_bool_decide; [|discriminate]. simplify_eq.
    destruct r as [|payload addr]; unfold Server.main_read in H.
    { simplify_eq; destruct Hin. }
    assert ((length (Server.buffer w) - 1
             <? read_n (Server.buffer w) 1 payload)%nat = false) as Hfit.
    { apply Nat.ltb_ge. apply read_n_le. }
    rewrite Hfit in H.
    repeat case_match; simplify_eq; simpl in Hin;
      repeat (destruct Hin as [Hin|Hin];
              [destruct Hl; simplify_eq|]);
      destruct Hin.
  - destruct (Server.tasks w !! s) as [tk|]; [|discriminate].
    case_match; [|discriminate]. simplify_eq.
    destruct r as [|payload addr]; unfold Server.task_read in H.
    { repeat case_match; simplify_eq; simpl in Hin;
        repeat (destruct Hin as [Hin|Hin];
                [destruct Hl; simplify_eq|]);
        destruct Hin. }
    assert ((length (Server.t_buffer tk) - 1
             <? read_n (Server.t_buffer tk) 1 payload)%nat = false) as Hfit.
    { apply Nat.ltb_ge. apply read_n_le. }
    rewrite Hfit in H. simplify_eq.
    destruct Hin as [Hin|[]]. discriminate.
Qed.

(** X7.  The checks [n > len(buffer)-1] after the reads into [buffer[1:]] never
    succeed, since a read returns no more bytes than the slice holds: in no
    run, of the client or of the server, from any world, is the line about a
    datagram of a wrong size from a peer or from the game server written. *)
Theorem oversize_checks_never_fire :
  (∀ es w w' t a n,
     Client.run w es = Some (w', t) →
     ¬ In (a, Stderr (WrongSizeFromPeer n)) t)
  ∧ (∀ es w w' t a n,
       Server.run w es = Some (w', t) →
       ¬ In (a, Stderr (WrongSizeFromPeer n)) t
       ∧ ¬ In (a, Stderr (WrongSizeFromGameServer n)) t).
Proof.
  split.
  - induction es as [|e es IH]; intros w w' t a n H; simpl in H.
    + simplify_eq. intros [].
    + destruct (Client.step w e) as [[w1 t1]|] eqn:Hs; [|discriminate].
      destruct (Client.run w1 es) as [[w2 t2]|] eqn:Hr; [|discriminate].
      simplify_eq. intros Hin. apply in_app_or in Hin as [Hin|Hin].
      * exact (client_step_no_oversize _ _ _ _ _ _ Hs Hin).
      * exact (IH _ _ _ _ _ Hr Hin).
  - induction es as [|e es IH]; intros w w' t a n H; simpl in H.
    + simplify_eq. split; intros [].
    + destruct (Server.step w e) as [[w1 t1]|] eqn:Hs; [|discriminate].
      destruct (Server.run w1 es) as [[w2 t2]|] eqn:Hr; [|discriminate].
      simplify_eq.
      destruct (server_step_no_oversize _ _ _ _ a n Hs) as [Hp Hg].
      destruct (IH _ _ _ a n Hr) as [Hp' Hg'].
      split; intros Hin; apply in_app_or in Hin as [Hin|Hin]; auto.
Qed.

(** A datagram of 5000 bytes from the application of the client of S6:
    no line about its size. *)
Lemma oversize_checks_never_fire_witness :
  ¬ In (Client.Main, Stderr (WrongSizeFromPeer 4095))
       (Client.output (Client.after Scenario.client0 Scenario.S6_events)
          [Client.Read (RecvOk (replicate 5000 7) Scenario.app)]).
Proof.
  destruct oversize_checks_never_fire as [Hclient _].
  apply (Hclient [Client.Read (RecvOk (replicate 5000 7) Scenario.app)]
           (Client.after Scenario.client0 Scenario.S6_events)
           (Client.after (Client.after Scenario.client0 Scenario.S6_events)
              [Client.Read (RecvOk (replicate 5000 7) Scenario.app)])).
  vm_compute. reflexivity.
Defined.

End Never.

(** * The server: the relay and the first frame *)

Section ServerRelay.

Import Server.

Lemma server_step_task_addrs w e w' t :
  (∀ s tk, tasks w !! s = Some tk → t_addr tk ≠ relayAddr w) →
  step w e = Some (w', t) →
  ∀ s tk, tasks w' !! s = Some tk → t_addr tk ≠ relayAddr w'.
Proof.
  intros Hinv H.
  destruct (server_step_frame _ _ _ _ H) as (Hrelay & _ & Hframe).
  rewrite Hrelay.
  unfold step in H. case_bool_decide; [discriminate|].
  destruct e as [d|busy|r| | |r ok|s0 r].
  - subst w'. exact Hinv.
  - destruct Hframe as (_ & -> & _). exact Hinv.
  - destruct Hframe as (_ & -> & _). exact Hinv.
  - unfold main_wake in H. case_match; simplify_eq. exact Hinv.
  - case_bool_decide; [|discriminate]. simplify_eq.
    unfold main_top in H. case_bool_decide; simplify_eq; exact Hinv.
  - case_bool_decide; [|discriminate]. simplify_eq.
    destruct r as [|payload addr]; unfold main_read in H.
    { simplify_eq. exact Hinv. }
    case_match; [simplify_eq; exact Hinv|].
    destruct (sameAddr addr (relayAddr w)) eqn:Hsame;
      [simplify_eq; exact Hinv|].
    destruct (peers w !! newAddrKey addr); [simplify_eq; exact Hinv|].
    destruct ok; simplify_eq; [|exact Hinv].
    simpl. intros s tk Htk.
    apply lookup_insert_Some in Htk as [[_ <-]|[_ Htk]]; [|eauto].
    simpl. intros ->. rewrite sameAddr_refl in Hsame. discriminate.
  - destruct (tasks w !! s0) as [tk0|] eqn:Htk0; [|discriminate].
    case_match; [|discriminate]. simplify_eq.
    unfold task_read in H.
    repeat case_match; simplify_eq; simpl; intros s tk Htk.
    + apply lookup_delete_Some in Htk as [_ Htk]. eauto.
    + apply lookup_delete_Some in Htk as [_ Htk]. eauto.
    + apply lookup_insert_Some in Htk as [[_ <-]|[_ Htk]]; simpl; eauto.
    + apply lookup_insert_Some in Htk as [[_ <-]|[_ Htk]]; simpl; eauto.
Qed.

Lemma server_run_task_addrs es : ∀ w w' t,
  (∀ s tk, tasks w !! s = Some tk → t_addr tk ≠ relayAddr w) →
  run w es = Some (w', t) →
  ∀ s tk, tasks w' !! s = Some tk → t_addr tk ≠ relayAddr w'.
Proof.
  induction es as [|e es IH]; intros w w' t Hinv H; simpl in H.
  - simplify_eq. exact Hinv.
  - destruct (step w e) as [[w1 t1]|] eqn:Hs; [|discriminate].
    destruct (run w1 es) as [[w2 t2]|] eqn:Hr; [|discriminate].
    simplify_eq. eapply IH; [|exact Hr].
    eapply server_step_task_addrs; eauto.
Qed.

(** X8.  The relay is never taken for a peer.  In a server run the relay
    endpoint has no record in the peers table and no per-peer goroutine; and no
    step makes a per-peer goroutine write to the relay endpoint. *)
Theorem server_relay_is_no_peer w :
  reachable w →
  peers w !! newAddrKey (relayAddr w) = None
  ∧ (∀ s tk, tasks w !! s = Some tk → t_addr tk ≠ relayAddr w)
  ∧ (∀ e w' t s σ pl,
       step w e = Some (w', t) →
       ¬ In (PeerTask s, WriteToUDP σ pl (relayAddr w)) t).
Proof.
  intros Hreach.
  destruct (server_reachable_inv _ Hreach) as (_ & _ & _ & Hrel & _).
  assert (∀ s tk, tasks w !! s = Some tk → t_addr tk ≠ relayAddr w) as Haddr.
  { destruct Hreach as (s0 & p & now & w0 & es & t & Hs & Hr).
    eapply server_run_task_addrs; [|exact Hr].
    unfold start in Hs. repeat case_match; simplify_eq. simpl.
    intros s tk Htk. rewrite lookup_empty in Htk. discriminate. }
  split; [exact Hrel|]. split; [exact Haddr|].
  intros e w' t s σ pl H Hin.
  unfold step in H. case_bool_decide; [discriminate|].
  destruct e as [d|busy|r| | |r ok|s0 r].
  - unfold elapse in H. case_match; simplify_eq; destruct Hin.
  - unfold keepalive_pass in H. case_match; [|discriminate]. simplify_eq.
    destruct Hin as [Hin|Hin]; [discriminate|].
    apply in_app_or in Hin as [Hin|Hin].
    + unfold punch_all in Hin.
      apply in_map_iff in Hin as (y & Heq & _). discriminate.
    + case_match; [destruct Hin as [Hin|[]]; discriminate|destruct Hin].
  - destruct (relay_alive w); [|discriminate]. simplify_eq.
    unfold relay_read in H.
    repeat case_match; simplify_eq; simpl in Hin;
      repeat (destruct Hin as [Hin|Hin]; [discriminate|]); destruct Hin.
  - unfold main_wake in H. case_match; simplify_eq; destruct Hin.
  - case_bool_decide; [|discriminate]. simplify_eq.
    unfold main_top in H. case_bool_decide; simplify_eq;
      try (destruct Hin; fail).
    apply in_concat in Hin as (kvs & Hkvs & Hin).
    apply in_map_iff in Hkvs as (kv & <- & _).
    unfold evict in Hin.
    repeat (destruct Hin as [Hin|Hin]; [discriminate|]). destruct Hin.
  - case_bool_decide; [|discriminate]. simplify_eq.
    unfold main_read in H.
    repeat case_match; simplify_eq; simpl in Hin;
      repeat (destruct Hin as [Hin|Hin]; [discriminate|]); destruct Hin.
  - destruct (tasks w !! s0) as [tk0|] eqn:Htk0; [|discriminate].
    case_match; [|discriminate]. simplify_eq.
    unfold task_read in H.
    repeat case_match; simplify_eq; simpl in Hin;
      repeat (destruct Hin as [Hin|Hin]; [simplify_eq|]);
      try (destruct Hin; fail).
    eapply Haddr; eauto.
Qed.

(** The server of S4: the relay has no record. *)
Lemma server_relay_is_no_peer_witness :
  peers (after Scenario.server0 Scenario.S4_events)
    !! newAddrKey Scenario.relay = None.
Proof.
  destruct (server_relay_is_no_peer
              (after Scenario.server0 Scenario.S4_events)) as (Hnone & _).
  - apply (server_reachable_after Scenario.os 7000 0); [reflexivity|].
    vm_compute. eexists; reflexivity.
  - exact Hnone.
Defined.

(** A frame is of a right size exactly when it is four bytes and a whole
    number of six-byte records. *)
Lemma wrong_size_records n :
  wrong_size n = false ↔ ∃ q, n = (4 + 6 * q)%nat.
Proof.
  unfold wrong_size. rewrite orb_false_iff, negb_false_iff, Nat.ltb_ge,
    Z.eqb_eq.
  rewrite Z.rem_mod_nonneg by lia. split.
  - intros [Hge Hrem]. exists (Z.to_nat (Z.of_nat n / 6)).
    pose proof (Z.div_mod (Z.of_nat n) 6 ltac:(lia)) as Hdm.
    pose proof (Z.div_pos (Z.of_nat n) 6 ltac:(lia) ltac:(lia)) as Hpos.
    lia.
  - intros [q ->]. split; [lia|].
    replace (Z.of_nat (4 + 6 * q)) with (4 + Z.of_nat q * 6) by lia.
    rewrite Z.mod_add by lia. reflexivity.
Qed.

(** Every entry the record loop adds is a record of the buffer, stored
    with the current time. *)
Lemma parse_records_only fuel : ∀ (b : list Z) i n now m k v,
  parse_records fuel b i n now m !! k = Some v →
  m !! k = Some v
  ∨ (v = now
     ∧ ∃ q, (i + 6 * q < n)%nat
            ∧ k = {| ip := ip_of_bytes
                             (slice b (i + 6 * q + 2) (i + 6 * q + 6));
                     port := Uint16 (slice b (i + 6 * q) (i + 6 * q + 2)) |}).
Proof.
  induction fuel as [|fuel IH]; intros b i n now m k v H;
    cbn [parse_records] in H; [left; exact H|].
  destruct (i <? n)%nat eqn:Hlt; [|left; exact H].
  apply Nat.ltb_lt in Hlt.
  apply IH in H as [H|(-> & q & Hq & ->)].
  - apply lookup_insert_Some in H as [[<- <-]|[_ H]]; [|left; exact H].
    right. split; [reflexivity|]. exists 0%nat.
    replace (i + 6 * 0)%nat with i by lia. auto.
  - right. split; [reflexivity|]. exists (S q).
    replace (i + 6 * S q)%nat with (i + 6 + 6 * q)%nat by lia. auto.
Qed.

Lemma server_step_unmapped w e w' t :
  (relay_alive w = true → mappings w = ∅) → step w e = Some (w', t) →
  relay_alive w' = true → mappings w' = ∅.
Proof.
  intros Hinv H Halive.
  destruct (server_step_frame _ _ _ _ H) as (_ & _ & Hframe).
  unfold step in H. case_bool_decide; [discriminate|].
  destruct e as [d|busy|r| | |r ok|s0 r].
  - subst w'. exact (Hinv Halive).
  - unfold keepalive_pass in H. case_match; [|discriminate]. simplify_eq.
    simpl in *. rewrite (Hinv Halive).
    case_bool_decide; [|reflexivity].
    unfold sweep_mappings. apply map_filter_empty.
  - destruct (relay_alive w) eqn:Hal; [|discriminate]. simplify_eq.
    unfold relay_read in H.
    repeat case_match; simplify_eq; simpl in *; auto; discriminate.
  - destruct Hframe as (-> & _ & _ & _ & Hal & _). rewrite Hal in Halive. auto.
  - destruct Hframe as (-> & _ & _ & _ & Hal & _). rewrite Hal in Halive. auto.
  - destruct Hframe as (-> & _ & _ & _ & Hal & _). rewrite Hal in Halive. auto.
  - destruct Hframe as (-> & _ & _ & _ & Hal & _). rewrite Hal in Halive. auto.
Qed.

Lemma server_reachable_unmapped w :
  reachable w → relay_alive w = true → mappings w = ∅.
Proof.
  intros (s & p & now & w0 & es & t & Hs & Hr).
  assert (relay_alive w0 = true → mappings w0 = ∅) as H0.
  { unfold start in Hs. repeat case_match; simplify_eq. reflexivity. }
  clear Hs. revert w0 w t H0 Hr.
  induction es as [|e es IH]; intros w0 w t H0 Hr; simpl in Hr.
  - simplify_eq. exact H0.
  - destruct (step w0 e) as [[w1 t1]|] eqn:Hs; [|discriminate].
    destruct (run w1 es) as [[w2 t2]|] eqn:Hr2; [|discriminate].
    simplify_eq. eapply IH; [|exact Hr2].
    eapply server_step_unmapped; eauto.
Qed.

(** X9.  The first frame of a right size, in a server run.  When the relay
    receive loop reads a frame of [4 + 6 * q] bytes from the relay, the mapping
    table afterwards holds exactly the endpoints of the [q] records of the
    frame (two bytes of port, big-endian, then four of address), each with the
    current time; the xor of the first four bytes does not reach the records.
    The loop is then over. *)
Theorem server_first_frame_exact w frame w' t :
  reachable w → relay_alive w = true → pc w ≠ Exited →
  (length frame ≤ bufferSize)%nat → wrong_size (length frame) = false →
  step w (RelayRead (RecvOk frame (relayAddr w))) = Some (w', t) →
  (∀ k v,
     mappings w' !! k = Some v
     ↔ v = clock w
       ∧ ∃ q, (4 + 6 * q + 6 ≤ length frame)%nat
              ∧ k = {| ip := ip_of_bytes
                               (slice frame (4 + 6 * q + 2) (4 + 6 * q + 6));
                       port := Uint16
                                 (slice frame (4 + 6 * q) (4 + 6 * q + 2)) |})
  ∧ relay_alive w' = false.
Proof.
  intros Hreach Hal Hlive Hfit Hws H.
  pose proof (server_reachable_inv _ Hreach) as Hinv.
  pose proof (server_reachable_unmapped _ Hreach Hal) as Hempty.
  destruct (proj1 (wrong_size_records _) Hws) as [Q HQ].
  pose proof H as H0.
  destruct Hinv as (Hb & Hrb & Htb & Hrel & Halive & Hpc).
  assert (ipReceived w = false) as Hip.
  { rewrite Hal in Halive.
    destruct (ipReceived w); [discriminate|reflexivity]. }
  unfold step in H. rewrite bool_decide_eq_false_2 in H by exact Hlive.
  rewrite Hal in H. unfold relay_read in H.
  rewrite sameAddr_refl, read_n_payload, Hws, Hip in H by lia.
  cbn [negb] in H. simplify_eq.
  split; [|reflexivity].
  intros k v. split.
  - intros Hk. cbn [mappings set_relay] in Hk.
    apply parse_records_only in Hk as [Hk|(-> & q & Hq & ->)].
    { rewrite Hempty, lookup_empty in Hk. discriminate. }
    split; [reflexivity|]. exists q. split; [lia|].
    rewrite !slice_unxor_read by lia. reflexivity.
  - intros (-> & q & Hq & ->).
    refine (proj1 (server_first_frame_records w frame _ _ q _ Hal Hlive
                     Hfit Hws H0 Hq)).
    unfold inv. auto 10.
Qed.

(** S3's frame, had it been the first: one record, 198.51.100.9:10000. *)
Lemma server_first_frame_exact_witness :
  let w' := after Scenario.server0
              [RelayRead (RecvOk Scenario.peer_frame Scenario.relay)] in
  ∃ q, (4 + 6 * q + 6 ≤ length Scenario.peer_frame)%nat
       ∧ newAddrKey Scenario.peerK
         = {| ip := ip_of_bytes
                      (slice Scenario.peer_frame (4 + 6 * q + 2)
                         (4 + 6 * q + 6));
              port := Uint16
                        (slice Scenario.peer_frame (4 + 6 * q)
                           (4 + 6 * q + 2)) |}.
Proof.
  intros w'.
  destruct (server_first_frame_exact Scenario.server0 Scenario.peer_frame w'
              (output Scenario.server0
                 [RelayRead (RecvOk Scenario.peer_frame Scenario.relay)]))
    as [Hexact _].
  - exists Scenario.os, 7000, 0, Scenario.server0, [], [].
    split; reflexivity.
  - reflexivity.
  - discriminate.
  - unfold bufferSize. simpl. lia.
  - reflexivity.
  - vm_compute. reflexivity.
  - destruct (proj1 (Hexact (newAddrKey Scenario.peerK) 0)) as (_ & q & Hq).
    + vm_compute. reflexivity.
    + exists q. exact Hq.
Defined.

End ServerRelay.

(** * The client: what it drops, where it writes, whom it answers *)

Section ClientExtras.

Import Client.

(** X10.  Datagrams the client has no use for.  While it waits for its port, a
    datagram from any source but the relay changes nothing but the buffer, be
    it from the peer or from the application.  Afterwards, a datagram from a
    source that is neither the remote endpoint nor on the loopback network does
    the same.  Nothing is written in either case. *)
Theorem client_drops_unexpected w payload src :
  (at_phase w = Learning → src ≠ relayAddr w →
   step w (Read (RecvOk payload src))
   = Some (set_buffer w (read_into (buffer w) 0 payload), []))
  ∧ (at_phase w = Forwarding → src ≠ remoteAddr w →
     localIpv4_Contains (IP src) = false →
     step w (Read (RecvOk payload src))
     = Some (set_buffer w (read_into (buffer w) 1 payload), [])).
Proof.
  split.
  - intros Hph Hne. unfold step, learn. rewrite Hph.
    rewrite (sameAddr_ne _ _ Hne). reflexivity.
  - intros Hph Hne Hfar. unfold step, forward. rewrite Hph.
    assert ((length (buffer w) - 1 <? read_n (buffer w) 1 payload)%nat
            = false) as ->.
    { apply Nat.ltb_ge. apply read_n_le. }
    rewrite (sameAddr_ne _ _ Hne), Hfar.
    destruct (sameAddr src (relayAddr w)); reflexivity.
Qed.

(** The application of S6 sends before the port is known; later a
    stranger sends a tagged datagram. *)
Lemma client_drops_unexpected_witness :
  step Scenario.client0 (Read (RecvOk [1; 2] Scenario.app))
  = Some (set_buffer Scenario.client0 (read_into newBuffer 0 [1; 2]), [])
  ∧ let w := after Scenario.client0 Scenario.S6_events in
    step w (Read (RecvOk [0xCC; 1] Scenario.peerJ))
    = Some (set_buffer w (read_into (buffer w) 1 [0xCC; 1]), []).
Proof.
  split.
  - apply (proj1 (client_drops_unexpected Scenario.client0 [1; 2]
                    Scenario.app)); [reflexivity|discriminate].
  - intros w.
    apply (proj2 (client_drops_unexpected w [0xCC; 1] Scenario.peerJ));
      [reflexivity|vm_compute; discriminate|reflexivity].
Defined.

(** The local endpoint is either unset or a loopback source heard
    before. *)
Lemma client_step_local w e w' t (P : UDPAddr → Prop) :
  (at_phase w = Learning → punch_wake w = None) →
  (localAddr w = zeroAddr ∨ P (localAddr w)) →
  (∀ payload src, e = Read (RecvOk payload src) →
     localIpv4_Contains (IP src) = true → P src) →
  step w e = Some (w', t) →
  (localAddr w' = zeroAddr ∨ P (localAddr w'))
  ∧ ∀ a s pl to, In (a, WriteToUDP s pl to) t →
      s = Public
      ∧ (to = relayAddr w
         ∨ (to = remoteAddr w ∧ at_phase w = Forwarding) ∨ P to).
Proof.
  intros Hpunch Hloc He H. destruct e as [d| | |r]; simpl in H.
  - unfold elapse in H. case_match; simplify_eq. simpl.
    split; [exact Hloc|]. intros a s pl to [].
  - unfold relay_tick in H. case_match; simplify_eq. simpl.
    split; [exact Hloc|].
    intros a s pl to [Hin|[Hin|[]]]; simplify_eq. auto.
  - unfold punch_tick in H. repeat case_match; simplify_eq. simpl.
    split; [exact Hloc|].
    intros a s pl to [Hin|[Hin|[]]]; simplify_eq.
    split; [reflexivity|]. right. left. split; [reflexivity|].
    destruct (at_phase w); [|reflexivity].
    specialize (Hpunch eq_refl). congruence.
  - destruct (at_phase w) eqn:Hph; simplify_eq.
    + unfold learn in H. repeat case_match; simplify_eq; simpl;
        (split; [auto|]); intros a s pl to Hin;
        repeat (destruct Hin as [Hin|Hin]; [discriminate|]); destruct Hin.
    + destruct r as [|payload src]; unfold forward in H.
      { simplify_eq. split; [exact Hloc|]. intros a s pl to []. }
      case_match.
      { simplify_eq. split; [exact Hloc|].
        intros a s pl to [Hin|[]]. discriminate. }
      case_match.
      { simplify_eq. split; [exact Hloc|]. intros a s pl to []. }
      case_match.
      { simplify_eq. simpl. split; [exact Hloc|].
        intros a s pl to Hin. apply in_app_or in Hin as [Hin|Hin].
        - destruct (foundPeer w); [destruct Hin|].
          destruct Hin as [Hin|[]]. discriminate.
        - destruct (negb (Z.of_nat (read_n (buffer w) 1 payload) =? 0)
                    && negb (Port (localAddr w) =? 0)
                    && (nth 1 (read_into (buffer w) 1 payload) 0 =? 204))
            eqn:Hc; [|destruct Hin].
          destruct Hin as [Hin|[]]. simplify_eq.
          split; [reflexivity|].
          destruct Hloc as [Hz|HP].
          + rewrite Hz in Hc. simpl in Hc.
            rewrite andb_false_r in Hc. discriminate.
          + right. right. exact HP. }
      destruct (localIpv4_Contains (IP src) || localIpv6_Contains (IP src))
        eqn:Hlocal.
      * simplify_eq. simpl.
        unfold localIpv6_Contains in Hlocal. rewrite orb_false_r in Hlocal.
        split; [right; eapply He; eauto|].
        intros a s pl to [Hin|[]]. simplify_eq. auto.
      * simplify_eq. split; [exact Hloc|]. intros a s pl to [].
Qed.

Lemma client_step_relay_fixed w e w' t :
  inv w → step w e = Some (w', t) → relayAddr w' = relayAddr w.
Proof.
  intros Hinv H. destruct (at_phase w) eqn:Hph.
  - exact (proj1 (client_step_learning _ _ _ _ Hinv Hph H)).
  - exact (proj2 (proj2 (client_step_forwarding _ _ _ _ Hph H))).
Qed.

Lemma client_run_destinations (P : UDPAddr → Prop) es : ∀ w0 w tr,
  inv w0 → (localAddr w0 = zeroAddr ∨ P (localAddr w0)) →
  (∀ payload src, In (Read (RecvOk payload src)) es →
     localIpv4_Contains (IP src) = true → P src) →
  run w0 es = Some (w, tr) →
  ∀ a s pl to, In (a, WriteToUDP s pl to) tr →
    s = Public ∧ (to = relayAddr w0 ∨ to = remoteAddr w ∨ P to).
Proof.
  induction es as [|e es IH]; intros w0 w tr Hinv Hloc Hes H; simpl in H.
  - simplify_eq. intros a s pl to [].
  - destruct (step w0 e) as [[w1 t1]|] eqn:Hs; [|discriminate].
    destruct (run w1 es) as [[w2 t2]|] eqn:Hr; [|discriminate].
    simplify_eq.
    pose proof (client_step_inv _ _ _ _ Hinv Hs) as Hinv1.
    pose proof (client_step_relay_fixed _ _ _ _ Hinv Hs) as Hrelay.
    destruct (client_step_local w0 e w1 t1 P (proj1 (proj2 Hinv)) Hloc)
      as [Hloc1 Hw1]; [|exact Hs|].
    { intros payload src -> Hlb. eapply Hes; [left; reflexivity|exact Hlb]. }
    intros a s pl to Hin. apply in_app_or in Hin as [Hin|Hin].
    + destruct (Hw1 _ _ _ _ Hin) as [-> [Hto|[[Hto Hph]|Hto]]];
        (split; [reflexivity|]); auto.
      right. left. rewrite Hto.
      destruct (client_step_forwarding _ _ _ _ Hph Hs) as (Hph1 & Hrem1 & _).
      destruct (client_run_forwarding _ _ _ _ Hph1 Hr) as (_ & Hrem2 & _).
      congruence.
    + rewrite <- Hrelay. eapply IH; eauto.
      intros payload src Hin' Hlb. eapply Hes; [right; exact Hin'|exact Hlb].
Qed.

(** X11.  Where the client writes.  In a run from startup every write goes out
    of the one socket, and to the relay endpoint, to the remote endpoint as it
    is at the end of the run, or to a loopback source from which a datagram was
    read earlier in the run. *)
Theorem client_writes_to_known_endpoints s p now w0 es w tr :
  start s p now = Some w0 → run w0 es = Some (w, tr) →
  ∀ a σ pl to, In (a, WriteToUDP σ pl to) tr →
    σ = Public
    ∧ (to = relayAddr w0 ∨ to = remoteAddr w
       ∨ (localIpv4_Contains (IP to) = true ∧ heard es to)).
Proof.
  intros Hs Hr.
  apply (client_run_destinations
           (λ to, localIpv4_Contains (IP to) = true ∧ heard es to)
           es w0 w tr).
  - eapply client_start_inv; eauto.
  - left. unfold start in Hs. repeat case_match; simplify_eq. reflexivity.
  - intros payload src Hin Hlb. split; [exact Hlb|]. exists payload. exact Hin.
  - exact Hr.
Qed.

(** S6: [Pong] goes to 127.0.0.1:62000, a loopback source heard before. *)
Lemma client_writes_to_known_endpoints_witness :
  Public = Public
  ∧ (Scenario.app = Scenario.relay ∨ Scenario.app = Scenario.peer
     ∨ (localIpv4_Contains (IP Scenario.app) = true
        ∧ heard (Scenario.S6_events
                   ++ [Read (RecvOk [0xCC; 80; 111; 110; 103] Scenario.peer)])
                Scenario.app)).
Proof.
  apply (client_writes_to_known_endpoints Scenario.os 34000 0
           Scenario.client0
           (Scenario.S6_events
              ++ [Read (RecvOk [0xCC; 80; 111; 110; 103] Scenario.peer)])
           (after Scenario.client0
              (Scenario.S6_events
                 ++ [Read (RecvOk [0xCC; 80; 111; 110; 103] Scenario.peer)]))
           (output Scenario.client0
              (Scenario.S6_events
                 ++ [Read (RecvOk [0xCC; 80; 111; 110; 103] Scenario.peer)]))
           eq_refl ltac:(vm_compute; reflexivity)
           Main Public [80; 111; 110; 103] Scenario.app).
  vm_compute. auto 20.
Defined.





End ClientExtras.

(** * The relay codec *)

Section Codec.

Lemma to_byte_mod x : to_byte x = x `mod` 256.
Proof. unfold to_byte. exact (Z.land_ones x 8 ltac:(lia)). Qed.

Lemma port_bytes_decode p :
  Uint16 [to_byte (Z.shiftr p 8); to_byte p] = p `mod` 65536.
Proof.
  rewrite Uint16_big_endian
    by (rewrite to_byte_mod; apply Z.mod_pos_bound; lia).
  rewrite !to_byte_mod, Z.shiftr_div_pow2 by lia.
  change (2 ^ 8) with 256.
  pose proof (Z.div_mod p 256 ltac:(lia)) as H1.
  pose proof (Z.div_mod (p `div` 256) 256 ltac:(lia)) as H2.
  pose proof (Z.mod_pos_bound p 256 ltac:(lia)) as H3.
  pose proof (Z.mod_pos_bound (p `div` 256) 256 ltac:(lia)) as H4.
  apply (Z.mod_unique_pos _ _ ((p `div` 256) `div` 256)); lia.
Qed.

Lemma lxor_twice v k : Z.lxor (Z.lxor v k) k = v.
Proof. rewrite Z.lxor_assoc, Z.lxor_nilpotent, Z.lxor_0_r. reflexivity. Qed.

(** X13.  The codec of the relay frames, end to end.
    - The port a server announces ([relayPayload]) is read back by a
      client ([Uint16] of the two bytes) as the port modulo 65536: as the
      port itself exactly when it is in [0, 65535].
    - The six bytes a client announces, taken as a record of a server
      frame, give back the address, and the port modulo 65536.
    - An address whose four bytes were each xor-ed with 0xCC, at the head
      of a frame, is printed by the server as it was. *)
Theorem relay_codec_round_trip :
  (∀ p, Uint16 (Server.relayPayload p) = p `mod` 65536)
  ∧ (∀ p, 0 ≤ p < 65536 ↔ Uint16 (Server.relayPayload p) = p)
  ∧ (∀ p a,
       Uint16 (slice (Client.relayPayload p a) 0 2) = p `mod` 65536
       ∧ ip_of_bytes (slice (Client.relayPayload p a) 2 6) = a
       ∧ length (Client.relayPayload p a) = 6%nat)
  ∧ (∀ a rest,
       Server.xor_first_four
         (((λ v, Z.lxor v 0xCC) <$> bytes_of_ip a) ++ rest) = a).
Proof.
  split; [|split; [|split]].
  - intros p. apply port_bytes_decode.
  - intros p. unfold Server.relayPayload. rewrite port_bytes_decode. split.
    + intros Hp. apply Z.mod_small. exact Hp.
    + intros Hp. rewrite <- Hp. apply Z.mod_pos_bound. lia.
  - intros p [[[a0 a1] a2] a3]. split; [|split; reflexivity].
    unfold Client.relayPayload. cbn [app bytes_of_ip].
    change (slice [to_byte (p ≫ 8); to_byte p; a0; a1; a2; a3] 0 2)
      with [to_byte (p ≫ 8); to_byte p].
    apply port_bytes_decode.
  - intros [[[a0 a1] a2] a3] rest. unfold Server.xor_first_four.
    cbn [bytes_of_ip fmap list_fmap app take ip_of_bytes nth].
    rewrite !lxor_twice. reflexivity.
Qed.

End Codec.

(** * The command line *)

Lemma is_mode_cases m :
  Cli.is_mode m = true →
  m = "s"%string ∨ m = "server"%string ∨ m = "c"%string ∨ m = "client"%string.
Proof.
  unfold Cli.is_mode. rewrite !orb_true_iff, !String.eqb_eq. tauto.
Qed.

Section CliLoops.

Variable ToLower : string → string.
Variable Atoi : string → Z * bool.

Lemma and_said_answer {A} x (r : Cli.asked A) a rest o :
  Cli.and_said x r = Cli.Answer a rest o →
  ∃ o', r = Cli.Answer a rest o' ∧ o = x :: o'.
Proof. destruct r; simpl; intros [= <- <- <-]; eauto. Qed.

Lemma said_of_and_said {A} x (r : Cli.asked A) :
  Cli.said_of (Cli.and_said x r) = x :: Cli.said_of r.
Proof. by destruct r. Qed.

Lemma ask_mode_ready d m ls :
  Cli.is_mode m = true → Cli.ask_mode ToLower d m ls = Cli.Answer m ls [].
Proof. intros H. destruct ls; simpl; by rewrite H. Qed.

Lemma ask_mode_asks d m ls :
  Cli.is_mode m = false →
  ∃ o, Cli.said_of (Cli.ask_mode ToLower d m ls) = Cli.AskMode d :: o.
Proof.
  intros H. destruct ls; simpl; rewrite H; simpl; eauto.
  rewrite said_of_and_said. eauto.
Qed.

Lemma ask_mode_answer d m ls m' rest o :
  Cli.ask_mode ToLower d m ls = Cli.Answer m' rest o → Cli.is_mode m' = true.
Proof.
  revert m o. induction ls as [|l ls IH]; intros m o; simpl;
    destruct (Cli.is_mode m) eqn:E; try discriminate;
    try (by intros [= <- <- <-]).
  intros H. apply and_said_answer in H as (o' & H & _). eauto.
Qed.

Lemma ask_host_ready d h p ls :
  h ≠ ""%string → Cli.ask_host ToLower Atoi d h p ls = Cli.Answer (h, p) ls [].
Proof.
  intros H. apply String.eqb_neq in H. destruct ls; simpl; by rewrite H.
Qed.

Lemma ask_host_asks d p ls :
  ∃ o, Cli.said_of (Cli.ask_host ToLower Atoi d "" p ls) = Cli.AskHost d :: o.
Proof.
  destruct ls as [|l ls]; simpl; eauto.
  destruct (String.eqb (ToLower l) ""); [rewrite said_of_and_said; eauto|].
  destruct (Cli.IndexByte _ _); [|rewrite said_of_and_said; eauto].
  destruct (Atoi _) as [z []]; rewrite said_of_and_said; eauto.
Qed.

Lemma ask_host_answer d h p ls h' p' rest o :
  Cli.ask_host ToLower Atoi d h p ls = Cli.Answer (h', p') rest o →
  h' ≠ ""%string.
Proof.
  revert h p o. induction ls as [|l ls IH]; intros h p o; simpl;
    destruct (String.eqb h "") eqn:E; simpl; try discriminate;
    try (intros [= <- <- <- <-]; by apply String.eqb_neq).
  destruct (String.eqb (ToLower l) "").
  { intros H. apply and_said_answer in H as (o' & H & _). eauto. }
  destruct (Cli.IndexByte _ _).
  - destruct (Atoi _) as [z []]; intros H.
    + apply and_said_answer in H as (o' & H & _). eauto.
    + apply and_said_answer in H as (o' & H & _).
      apply and_said_answer in H as (o'' & H & _). eauto.
  - intros H. apply and_said_answer in H as (o' & H & _). eauto.
Qed.

Lemma ask_port_ready d p ls :
  p ≠ 0 → Cli.ask_port Atoi d p ls = Cli.Answer p ls [].
Proof.
  intros H. apply Z.eqb_neq in H. destruct ls; simpl; by rewrite H.
Qed.

Lemma ask_port_asks d ls :
  ∃ o, Cli.said_of (Cli.ask_port Atoi d 0 ls) = Cli.AskPort d :: o.
Proof.
  destruct ls as [|l ls]; simpl; eauto.
  destruct (String.eqb l ""); rewrite said_of_and_said; eauto.
Qed.

Lemma ask_port_answer d p ls p' rest o :
  Cli.ask_port Atoi d p ls = Cli.Answer p' rest o → p' ≠ 0.
Proof.
  revert p o. induction ls as [|l ls IH]; intros p o; simpl;
    destruct (p =? 0) eqn:E; simpl; try discriminate;
    try (intros [= <- <- <-]; by apply Z.eqb_neq).
  destruct (String.eqb l ""); intros H;
    apply and_said_answer in H as (o' & H & _); eauto.
Qed.

Lemma configure_starts fl file lines :
  match Cli.did (Cli.configure ToLower Atoi fl file lines) with
  | Cli.StartClient h p => h ≠ ""%string ∧ p ≠ 0
  | Cli.StartServer p => p ≠ 0
  | Cli.Returned => True
  | Cli.Panicked => False
  end.
Proof.
  unfold Cli.configure.
  destruct (Cli.ask_mode _ _ _ _) as [m ls1 o1|] eqn:Hm; simpl; trivial.
  set (mode := if String.eqb (Cli.f_mode fl) "" then _ else m).
  destruct (if Cli.is_client mode then _ else _) as [[h p] ls2 o2|] eqn:Hh;
    simpl; trivial.
  destruct (Cli.ask_port _ _ _ _) as [p' ls3 o3|] eqn:Hp; simpl; trivial.
  apply ask_port_answer in Hp.
  destruct (Cli.is_client mode); simpl; [|done].
  apply ask_host_answer in Hh. done.
Qed.

(** X14.  Whatever the flags, the configuration file, the list of
    releases and the standard input: [main] calls [client] only with a host
    that is not empty and a port that is not 0, and [server] only with a
    port that is not 0. *)
Theorem cli_starts_with_host_and_port version arch fl releases inst file
    lines :
  match Cli.did (Cli.main ToLower Atoi version arch fl releases inst file
                   lines) with
  | Cli.StartClient h p => h ≠ ""%string ∧ p ≠ 0
  | Cli.StartServer p => p ≠ 0
  | _ => True
  end.
Proof.
  unfold Cli.main.
  destruct (Cli.update_checked _ _ _ _ _ _ _) as [[[[]|] ls] o0];
    simpl; trivial.
  pose proof (configure_starts fl file ls) as H.
  by destruct (Cli.did _).
Qed.

Lemma update_checked_off version arch fl releases inst lines :
  Cli.f_noUpdate fl = true →
  Cli.update_checked ToLower version arch fl releases inst lines
  = (Some false, lines, []).
Proof. intros H. unfold Cli.update_checked. by rewrite H. Qed.

Lemma main_without_update version arch fl releases inst file lines :
  Cli.f_noUpdate fl = true →
  Cli.main ToLower Atoi version arch fl releases inst file lines
  = Cli.configure ToLower Atoi fl file lines.
Proof.
  intros H. unfold Cli.main. rewrite update_checked_off by done.
  simpl. by destruct (Cli.configure _ _ _ _ _).
Qed.

Lemma configure_complete fl file lines :
  (Cli.out (Cli.configure ToLower Atoi fl file lines) = []
   ↔ Cli.complete fl = true)
  ∧ (Cli.complete fl = true →
     Cli.configure ToLower Atoi fl file lines
     = {| Cli.did := if Cli.is_client (Cli.f_mode fl)
                     then Cli.StartClient (Cli.f_host fl) (Cli.f_port fl)
                     else Cli.StartServer (Cli.f_port fl);
          Cli.out := [];
          Cli.saved := Cli.saved (Cli.configure ToLower Atoi fl file lines)
       |}).
Proof.
  unfold Cli.configure, Cli.complete.
  match goal with
  | |- context [Cli.ask_mode _ (Cli.Mode ?c)] => set (config := c)
  end.
  destruct (Cli.is_mode (Cli.f_mode fl)) eqn:Hm.
  2:{ destruct (ask_mode_asks (Cli.Mode config) (Cli.f_mode fl) lines Hm)
        as [o Ho].
      destruct (Cli.ask_mode _ _ _ _) as [m ls1 o1|]; simpl in *; subst;
        [|by split].
      destruct (if Cli.is_client _ then _ else _) as [[h p] ls2 o2|];
        simpl; [|by split].
      destruct (Cli.ask_port _ _ _ _); by split. }
  rewrite ask_mode_ready by done.
  assert (String.eqb (Cli.f_mode fl) "" = false) as ->.
  { apply String.eqb_neq. intros E. by rewrite E in Hm. }
  destruct (Cli.is_client (Cli.f_mode fl)) eqn:Hc; simpl.
  - destruct (String.eqb (Cli.f_host fl) "") eqn:Hh; simpl.
    + apply String.eqb_eq in Hh. rewrite Hh.
      destruct (ask_host_asks (Cli.Host config) (Cli.f_port fl) lines)
        as [o Ho].
      destruct (Cli.ask_host _ _ _ _ _ _) as [[h p] ls2 o2|]; simpl in *;
        subst; [|by split].
      destruct (Cli.ask_port _ _ _ _); by split.
    + apply String.eqb_neq in Hh. rewrite ask_host_ready by done.
      destruct (Cli.f_port fl =? 0) eqn:Hp; simpl.
      * apply Z.eqb_eq in Hp. rewrite Hp.
        destruct (ask_port_asks (Cli.RemotePort config) lines)
          as [o Ho].
        destruct (Cli.ask_port _ _ _ _); simpl in *; subst; by split.
      * apply Z.eqb_neq in Hp. rewrite ask_port_ready by done. by split.
  - destruct (Cli.f_port fl =? 0) eqn:Hp; simpl.
    + apply Z.eqb_eq in Hp. rewrite Hp.
      destruct (ask_port_asks (Cli.LocalPort config) lines) as [o Ho].
      destruct (Cli.ask_port _ _ _ _); simpl in *; subst; by split.
    + apply Z.eqb_neq in Hp. rewrite ask_port_ready by done. by split.
Qed.

(** X15.  When the update is switched off: [main] asks nothing exactly
    when the flags name a role ([s], [server], [c] or [client]), a port
    that is not 0 and, for a client, a host; it then starts that role with
    the host and the port of the flags, whatever the configuration file and
    the standard input hold. *)
Theorem cli_flags_complete version arch fl releases inst file lines :
  Cli.f_noUpdate fl = true →
  let r := Cli.main ToLower Atoi version arch fl releases inst file lines in
  (Cli.out r = [] ↔ Cli.complete fl = true)
  ∧ (Cli.complete fl = true →
     Cli.did r = if Cli.is_client (Cli.f_mode fl)
                 then Cli.StartClient (Cli.f_host fl) (Cli.f_port fl)
                 else Cli.StartServer (Cli.f_port fl)).
Proof.
  intros H r. subst r. rewrite main_without_update by done.
  destruct (configure_complete fl file lines) as [H1 H2].
  split; [done|]. intros Hc. by rewrite (H2 Hc).
Qed.

End CliLoops.

Lemma cli_flags_complete_witness :
  Cli.did (CliScenario.run CliScenario.server_flags None Cli.HasRun
             (Some CliScenario.saved_client) ["c"%string])
  = Cli.StartServer 7000.
Proof.
  destruct (cli_flags_complete Cli.ascii_ToLower Cli.short_Atoi "v1" "linux"
              CliScenario.server_flags None Cli.HasRun
              (Some CliScenario.saved_client) ["c"%string] eq_refl)
    as [_ H].
  apply H. reflexivity.
Defined.

Lemma checked_port_range p : 0 ≤ Cli.checked_port p ≤ 65535.
Proof. unfold Cli.checked_port. destruct (_ || _) eqn:E; [lia|].
  apply orb_false_iff in E as [?%Z.leb_gt ?%Z.ltb_ge]. lia. Qed.

Lemma checked_port_kept p : 0 < p ≤ 65535 → Cli.checked_port p = p.
Proof.
  intros H. unfold Cli.checked_port.
  destruct (p <=? 0) eqn:E1; [apply Z.leb_le in E1; lia|].
  destruct (65535 <? p) eqn:E2; [apply Z.ltb_lt in E2; lia|]. done.
Qed.

Lemma checked_port_dropped p : ¬ 0 < p ≤ 65535 → Cli.checked_port p = 0.
Proof.
  intros H. unfold Cli.checked_port.
  destruct (p <=? 0) eqn:E1; [done|].
  destruct (65535 <? p) eqn:E2; [done|].
  apply Z.leb_gt in E1. apply Z.ltb_ge in E2. lia.
Qed.

Lemma checked_mode c :
  Cli.Mode (Cli.checked c) = ""%string
  ∨ Cli.Mode (Cli.checked c) = "server"%string
  ∨ Cli.Mode (Cli.checked c) = "client"%string.
Proof.
  unfold Cli.checked; simpl.
  destruct (String.eqb (Cli.Mode c) "server") eqn:E1; simpl.
  { apply String.eqb_eq in E1. auto. }
  destruct (String.eqb (Cli.Mode c) "client") eqn:E2; simpl; [|auto].
  apply String.eqb_eq in E2. auto.
Qed.

Section CliConfig.

Variable ToLower : string → string.
Variable Atoi : string → Z * bool.

Lemma configure_saved fl file lines c :
  Cli.saved (Cli.configure ToLower Atoi fl file lines) = Some c →
  Cli.f_noSave fl = false
  ∧ (Cli.Mode c = ""%string ∨ Cli.Mode c = "server"%string
     ∨ Cli.Mode c = "client"%string)
  ∧ match Cli.did (Cli.configure ToLower Atoi fl file lines) with
    | Cli.StartClient h p =>
        (Cli.f_mode fl = ""%string → Cli.Mode c = "client"%string)
        ∧ (Cli.f_host fl = ""%string → Cli.Host c = h)
        ∧ (Cli.f_port fl = 0 → Cli.RemotePort c = p)
    | Cli.StartServer p =>
        (Cli.f_mode fl = ""%string → Cli.Mode c = "server"%string)
        ∧ (Cli.f_port fl = 0 → Cli.LocalPort c = p)
    | _ => False
    end.
Proof.
  unfold Cli.configure.
  match goal with
  | |- context [Cli.ask_mode _ (Cli.Mode ?c)] =>
      assert (Cli.Mode c = ""%string ∨ Cli.Mode c = "server"%string
              ∨ Cli.Mode c = "client"%string) as Hc0;
      [|generalize dependent c; intros config Hc0]
  end.
  { destruct (_ || _); [by left|]. destruct file; [|by left].
    apply checked_mode. }
  destruct (Cli.ask_mode ToLower _ _ _) as [m ls1 o1|] eqn:Hm; [|done].
  apply ask_mode_answer, is_mode_cases in Hm.
  assert (∃ b, (Cli.f_port fl =? 0) = b ∧ (b = false → Cli.f_port fl ≠ 0))
    as (bp & -> & Hbp).
  { eexists; split; [done|]. by intros ?%Z.eqb_neq. }
  assert (∃ b, String.eqb (Cli.f_host fl) "" = b
               ∧ (b = false → Cli.f_host fl ≠ ""%string))
    as (bh & -> & Hbh).
  { eexists; split; [done|]. by intros ?%String.eqb_neq. }
  destruct (String.eqb (Cli.f_mode fl) "") eqn:Hfm.
  - assert (True) as Hne by done.
    destruct Hm as [-> | [-> | [-> | ->]]]; simpl;
      match goal with
      | |- context [match ?a with Cli.Answer _ _ _ => _ | Cli.Eof _ => _ end] =>
          destruct a as [[h p] ls2 o2|]; [|done]
      | _ => idtac
      end;
      destruct (Cli.ask_port Atoi _ _ _) as [p' ls3 o3|]; simpl; try done;
      destruct (Cli.f_noSave fl); simpl; try (rewrite !andb_false_r; done);
      rewrite orb_true_r, ?andb_true_r;
      (destruct (_ || _); simpl; [done|]);
      destruct bp, bh; simpl; intros [= <-]; simpl;
      repeat split; auto; intros; exfalso;
      first [by apply Hbp | by apply Hbh | by apply Hne].
  - assert (Cli.f_mode fl ≠ ""%string) as Hne by by apply String.eqb_neq.
    destruct (Cli.is_client m); simpl;
      [destruct (Cli.ask_host ToLower Atoi _ _ _ _) as [[h p] ls2 o2|]; [|done]|];
      destruct (Cli.ask_port Atoi _ _ _) as [p' ls3 o3|]; simpl; try done;
      destruct (Cli.f_noSave fl); simpl; try (rewrite !andb_false_r; done);
      (destruct (_ || _); simpl; [done|]);
      destruct bp, bh; simpl; try done; intros [= <-]; simpl;
      repeat split; auto; intros; exfalso;
      first [by apply Hbp | by apply Hbh | by apply Hne].
Qed.

(** X16.  The configuration [main] sets out to save: there is one only
    without [-nosave] and when a role is started; its mode is empty,
    [server] or [client]; and what was not given by a flag is what the role
    is started with: the mode in its long form, the host of a client, and
    the port as the local port of a server or the remote port of a
    client. *)
Theorem cli_saved_config version arch fl releases inst file lines c :
  let r := Cli.main ToLower Atoi version arch fl releases inst file lines in
  Cli.saved r = Some c →
  Cli.f_noSave fl = false
  ∧ (Cli.Mode c = ""%string ∨ Cli.Mode c = "server"%string
     ∨ Cli.Mode c = "client"%string)
  ∧ match Cli.did r with
    | Cli.StartClient h p =>
        (Cli.f_mode fl = ""%string → Cli.Mode c = "client"%string)
        ∧ (Cli.f_host fl = ""%string → Cli.Host c = h)
        ∧ (Cli.f_port fl = 0 → Cli.RemotePort c = p)
    | Cli.StartServer p =>
        (Cli.f_mode fl = ""%string → Cli.Mode c = "server"%string)
        ∧ (Cli.f_port fl = 0 → Cli.LocalPort c = p)
    | _ => False
    end.
Proof.
  intros r; subst r. unfold Cli.main.
  destruct (Cli.update_checked _ _ _ _ _ _ _) as [[[[]|] ls] o0];
    simpl; try done.
  apply configure_saved.
Qed.

End CliConfig.

Lemma cli_saved_config_witness :
  let r := CliScenario.run CliScenario.no_flags None Cli.HasRun None
             ["C"; "Example.org:8000"]%string in
  Cli.saved r = Some CliScenario.saved_client
  ∧ Cli.did r = Cli.StartClient "example.org" 8000
  ∧ Cli.f_noSave CliScenario.no_flags = false.
Proof.
  intros r.
  assert (Cli.saved r = Some CliScenario.saved_client) as Hs
    by reflexivity.
  destruct (cli_saved_config Cli.ascii_ToLower Cli.short_Atoi "v1" "linux"
              CliScenario.no_flags None Cli.HasRun None
              ["C"; "Example.org:8000"]%string CliScenario.saved_client Hs)
    as (Hn & _ & _).
  split; [exact Hs|]. split; [reflexivity|exact Hn].
Defined.

Lemma port_kept_server p :
  Cli.port_kept (Cli.StartServer p) = true ↔ 0 < p ≤ 65535.
Proof. simpl. rewrite andb_true_iff, Z.ltb_lt, Z.leb_le. done. Qed.

Section CliAgain.

Variable ToLower : string → string.
Variable Atoi : string → Z * bool.
Hypothesis ToLower_empty : ToLower "" = ""%string.

Lemma configure_defaults_server ns nu c :
  Cli.Mode c = "server"%string → Cli.LocalPort c ≠ 0 →
  Cli.did (Cli.configure ToLower Atoi (Cli.mkFlags "" "" 0 ns nu) (Some c)
             [""; ""; ""]%string)
  = if Cli.port_kept (Cli.StartServer (Cli.LocalPort c))
    then Cli.StartServer (Cli.LocalPort c) else Cli.Returned.
Proof.
  destruct c as [m lp h rp]; simpl. intros -> Hp.
  unfold Cli.configure; simpl. rewrite ToLower_empty; simpl.
  destruct ((0 <? lp) && (lp <=? 65535)) eqn:Hk.
  - rewrite checked_port_kept by by apply port_kept_server.
    apply Z.eqb_neq in Hp. by rewrite Hp.
  - rewrite checked_port_dropped; [done|].
    rewrite <- port_kept_server. simpl. by rewrite Hk.
Qed.

Lemma configure_defaults_client ns nu c :
  Cli.Mode c = "client"%string → Cli.Host c ≠ ""%string →
  Cli.RemotePort c ≠ 0 →
  Cli.did (Cli.configure ToLower Atoi (Cli.mkFlags "" "" 0 ns nu) (Some c)
             [""; ""; ""]%string)
  = if Cli.port_kept (Cli.StartClient (Cli.Host c) (Cli.RemotePort c))
    then Cli.StartClient (Cli.Host c) (Cli.RemotePort c) else Cli.Returned.
Proof.
  destruct c as [m lp h rp]; simpl. intros -> Hh Hp.
  unfold Cli.configure; simpl. rewrite ToLower_empty; simpl.
  rewrite ToLower_empty; simpl.
  apply String.eqb_neq in Hh. rewrite Hh; simpl.
  destruct ((0 <? rp) && (rp <=? 65535)) eqn:Hk.
  - rewrite checked_port_kept by by apply port_kept_server.
    apply Z.eqb_neq in Hp. by rewrite Hp.
  - rewrite checked_port_dropped; [done|].
    rewrite <- port_kept_server. simpl. by rewrite Hk.
Qed.

Lemma configure_again fl file lines c :
  Cli.f_mode fl = ""%string → Cli.f_host fl = ""%string →
  Cli.f_port fl = 0 →
  Cli.saved (Cli.configure ToLower Atoi fl file lines) = Some c →
  Cli.did (Cli.configure ToLower Atoi fl (Some c) [""; ""; ""]%string)
  = if Cli.port_kept (Cli.did (Cli.configure ToLower Atoi fl file lines))
    then Cli.did (Cli.configure ToLower Atoi fl file lines)
    else Cli.Returned.
Proof.
  intros Hm Hh Hp Hs.
  destruct (configure_saved ToLower Atoi fl file lines c Hs) as (_ & _ & H).
  pose proof (configure_starts ToLower Atoi fl file lines) as H'.
  destruct fl as [fm fh fp ns nu]; simpl in Hm, Hh, Hp; subst.
  destruct (Cli.did _) as [|h p|p|]; try done; simpl in H.
  - destruct H as (H1 & H2 & H3), H' as [H4 H5].
    specialize (H1 eq_refl). specialize (H2 eq_refl).
    specialize (H3 eq_refl). subst h p.
    by apply configure_defaults_client.
  - destruct H as (H1 & H2). specialize (H1 eq_refl).
    specialize (H2 eq_refl). subst p.
    by apply configure_defaults_server.
Qed.

(** X17.  With no [-mode], [-host] and [-port] flag and the update
    switched off: when [main] has started a role and set out to save the
    configuration, a second run that reads the saved configuration and
    answers every prompt with an empty line starts the same role with the
    same host and port if the port is in 1..65535; if it is not, the second
    run drops the saved port, asks for one until its input ends and returns
    without starting a role. *)
Theorem cli_saved_config_round_trip version arch fl releases inst file
    lines c :
  Cli.f_mode fl = ""%string → Cli.f_host fl = ""%string →
  Cli.f_port fl = 0 → Cli.f_noUpdate fl = true →
  let first :=
    Cli.main ToLower Atoi version arch fl releases inst file lines in
  let second :=
    Cli.main ToLower Atoi version arch fl releases inst (Some c)
      [""; ""; ""]%string in
  Cli.saved first = Some c →
  Cli.did second
  = if Cli.port_kept (Cli.did first) then Cli.did first else Cli.Returned.
Proof.
  intros Hm Hh Hp Hu first second. subst first second.
  rewrite !main_without_update by done. by apply configure_again.
Qed.

End CliAgain.

Lemma cli_saved_config_round_trip_witness :
  Cli.did (CliScenario.run CliScenario.no_flags None Cli.HasRun
             (Some CliScenario.saved_client) [""; ""; ""]%string)
  = Cli.StartClient "example.org" 8000.
Proof.
  apply (cli_saved_config_round_trip Cli.ascii_ToLower Cli.short_Atoi
           eq_refl "v1" "linux" CliScenario.no_flags None Cli.HasRun None
           ["C"; "Example.org:8000"]%string CliScenario.saved_client);
    reflexivity.
Defined.

Section CliPort.

Variable ToLower : string → string.
Variable Atoi : string → Z * bool.

Lemma ask_port_first d ls :
  Cli.ask_port Atoi d 0 ls
  = match list_find (λ p, p ≠ 0) (Cli.port_answer Atoi d <$> ls) with
    | Some (i, p) =>
        Cli.Answer p (drop (S i) ls) (replicate (S i) (Cli.AskPort d))
    | None => Cli.Eof (replicate (S (length ls)) (Cli.AskPort d))
    end.
Proof.
  induction ls as [|l ls IH]; [done|].
  assert (Cli.ask_port Atoi d 0 (l :: ls)
          = Cli.and_said (Cli.AskPort d)
              (Cli.ask_port Atoi d (Cli.port_answer Atoi d l) ls)) as ->.
  { unfold Cli.port_answer. simpl. by destruct (String.eqb l ""). }
  rewrite fmap_cons. simpl list_find.
  destruct (decide (Cli.port_answer Atoi d l ≠ 0)) as [Hp|Hp].
  - rewrite ask_port_ready by done. simpl. by rewrite drop_0.
  - apply dec_stable in Hp. rewrite Hp, IH.
    destruct (list_find _ _) as [[i p]|]; done.
Qed.

(** X18.  The port prompt of a server.  With the update switched off, a
    [-mode] flag [s] or [server] and no [-port] flag, [main] starts the
    server on the first answer whose value is not 0, where an empty line
    stands for the local port of the configuration file (0 if the file
    holds none in 1..65535) and any other line for the number [Atoi]
    returns for it: an error of [Atoi] is not looked at and the number is
    not checked against 1..65535.  When no answer has such a value [main]
    returns at the end of the input. *)
Theorem cli_server_port_prompt version arch fl releases inst file lines :
  Cli.f_noUpdate fl = true →
  Cli.f_mode fl = "s"%string ∨ Cli.f_mode fl = "server"%string →
  Cli.f_port fl = 0 →
  let default :=
    match file with
    | Some c => Cli.checked_port (Cli.LocalPort c)
    | None => 0
    end in
  Cli.did (Cli.main ToLower Atoi version arch fl releases inst file lines)
  = match list_find (λ p, p ≠ 0) (Cli.port_answer Atoi default <$> lines)
    with
    | Some (_, p) => Cli.StartServer p
    | None => Cli.Returned
    end.
Proof.
  intros Hu Hm Hp default. rewrite main_without_update by done.
  destruct fl as [fm fh fp ns nu]; simpl in Hm, Hp; subst fp.
  unfold Cli.configure.
  assert (Cli.is_mode fm = true ∧ Cli.is_client fm = false
          ∧ String.eqb fm "" = false) as (Hm1 & Hm2 & Hm3).
  { by destruct Hm as [-> | ->]. }
  simpl. rewrite !andb_false_r. simpl.
  rewrite ask_mode_ready by done. rewrite Hm3, Hm2.
  simpl. rewrite ask_port_first.
  replace (Cli.LocalPort match file with
                          | Some c => Cli.checked c
                          | None => Cli.zeroConfig
                          end) with default by by destruct file.
  by destruct (list_find _ _) as [[i p]|].
Qed.

(** X19.  A client without a [-host] flag, update switched off: when the
    first answer to the host prompt has a [:] and [Atoi] rejects what
    follows it with the value 0, [main] goes on exactly as if no [-port]
    flag had been given: it starts the same role and asks the same
    questions. *)
Theorem cli_rejected_port_drops_flag version arch fl releases inst file l
    lines i :
  Cli.f_noUpdate fl = true →
  Cli.f_mode fl = "c"%string ∨ Cli.f_mode fl = "client"%string →
  Cli.f_host fl = ""%string →
  ToLower l ≠ ""%string →
  Cli.IndexByte (ToLower l) ":" = Some i →
  Atoi (Cli.after_byte (ToLower l) i) = (0, false) →
  let fl0 :=
    Cli.mkFlags (Cli.f_mode fl) "" 0 (Cli.f_noSave fl) true in
  let r :=
    Cli.main ToLower Atoi version arch fl releases inst file (l :: lines) in
  let r0 :=
    Cli.main ToLower Atoi version arch fl0 releases inst file (l :: lines) in
  Cli.did r = Cli.did r0 ∧ Cli.out r = Cli.out r0.
Proof.
  intros Hu Hm Hh Hl Hi Ha fl0 r r0. subst fl0 r r0.
  rewrite !main_without_update by done.
  destruct fl as [fm fh fp ns nu]; simpl in Hm, Hh, Hu; subst fh.
  unfold Cli.configure.
  assert (Cli.is_mode fm = true ∧ Cli.is_client fm = true
          ∧ String.eqb fm "" = false ∧ String.eqb fm "server" = false)
    as (Hm1 & Hm2 & Hm3 & Hm4).
  { by destruct Hm as [-> | ->]. }
  cbn [Cli.f_mode Cli.f_host Cli.f_port Cli.f_noSave].
  rewrite !ask_mode_ready by done. rewrite Hm3, Hm2, Hm4.
  cbn [String.eqb negb andb orb].
  rewrite !andb_false_r. cbn [orb].
  assert (∀ d p, Cli.ask_host ToLower Atoi d "" p (l :: lines)
                 = Cli.and_said (Cli.AskHost d)
                     (Cli.and_said Cli.InvalidHostFormat
                        (Cli.ask_host ToLower Atoi d "" 0 lines))) as Hask.
  { intros d p. simpl. apply String.eqb_neq in Hl. by rewrite Hl, Hi, Ha. }
  rewrite !Hask. simpl.
  destruct (Cli.ask_host ToLower Atoi _ "" 0 lines) as [[h p] ls2 o2|];
    simpl; [|done].
  by destruct (Cli.ask_port Atoi _ _ _).
Qed.

End CliPort.

Lemma cli_server_port_prompt_witness :
  Cli.did (CliScenario.run CliScenario.short_server None Cli.HasRun
             (Some CliScenario.saved_server) ["port"; "70000"]%string)
  = Cli.StartServer 70000
  ∧ Cli.did (CliScenario.run CliScenario.short_server None Cli.HasRun
               (Some CliScenario.saved_server) ["port"; ""]%string)
    = Cli.StartServer 7000.
Proof.
  split.
  - apply (cli_server_port_prompt Cli.ascii_ToLower Cli.short_Atoi
             "v1" "linux" CliScenario.short_server None Cli.HasRun
             (Some CliScenario.saved_server) ["port"; "70000"]%string);
      [reflexivity|left; reflexivity|reflexivity].
  - apply (cli_server_port_prompt Cli.ascii_ToLower Cli.short_Atoi
             "v1" "linux" CliScenario.short_server None Cli.HasRun
             (Some CliScenario.saved_server) ["port"; ""]%string);
      [reflexivity|left; reflexivity|reflexivity].
Defined.

Lemma cli_rejected_port_drops_flag_witness :
  let r := CliScenario.run CliScenario.client_port None Cli.HasRun None
             ["Example.org:80a"; "example.org"]%string in
  let r0 := CliScenario.run (Cli.mkFlags "client" "" 0 false true) None
              Cli.HasRun None ["Example.org:80a"; "example.org"]%string in
  Cli.did r = Cli.did r0 ∧ Cli.out r = Cli.out r0
  ∧ Cli.did r = Cli.Returned.
Proof.
  intros r r0.
  destruct (cli_rejected_port_drops_flag Cli.ascii_ToLower Cli.short_Atoi
              "v1" "linux" CliScenario.client_port None Cli.HasRun None
              "Example.org:80a" ["example.org"%string] 11%nat)
    as [H1 H2];
    [reflexivity|right; reflexivity|reflexivity|discriminate
    |reflexivity|reflexivity|].
  split; [exact H1|]. split; [exact H2|]. reflexivity.
Defined.

Lemma find_first {A} (f : A → bool) (l : list A) (a : A) :
  List.find f l = Some a
  ↔ ∃ l1 l2, l = l1 ++ a :: l2 ∧ f a = true ∧ ∀ b, b ∈ l1 → f b = false.
Proof.
  split.
  - induction l as [|x l IH]; simpl; [done|].
    destruct (f x) eqn:E.
    + intros [= ->]. exists [], l. split; [done|]. split; [done|].
      intros b Hb. by apply elem_of_nil in Hb.
    + intros H. destruct (IH H) as (l1 & l2 & -> & Ha & Hl).
      exists (x :: l1), l2. split; [done|]. split; [done|].
      intros b [-> | Hb]%elem_of_cons; auto.
  - intros (l1 & l2 & -> & Ha & Hl).
    induction l1 as [|x l1 IH]; simpl; [by rewrite Ha|].
    rewrite (Hl x) by by left. apply IH. intros b Hb. apply Hl. by right.
Qed.

Lemma find_nothing {A} (f : A → bool) (l : list A) :
  List.find f l = None ↔ ∀ b, b ∈ l → f b = false.
Proof.
  induction l as [|x l IH]; simpl.
  - split; [|done]. intros _ b Hb. by apply elem_of_nil in Hb.
  - destruct (f x) eqn:E.
    + split; [done|]. intros H. rewrite (H x) in E by by left. done.
    + rewrite IH. split.
      * intros H b [-> | Hb]%elem_of_cons; auto.
      * intros H b Hb. apply H. by right.
Qed.

(** X20.  The release [update] offers.  An asset [a] of a release [r] is
    offered exactly when [r] comes before any release with the tag of the
    running version, no release before [r] has an asset whose name contains
    the architecture, and [a] is the first asset of [r] whose name does: of
    the releases listed before the running one, the first with a matching
    asset is offered, and none once the running version is met. *)
Theorem cli_update_offer rs version arch r a :
  Cli.offered rs version arch = Some (r, a)
  ↔ ∃ pre post apre apost,
      rs = pre ++ r :: post
      ∧ Cli.Assets r = apre ++ a :: apost
      ∧ (∀ x, x ∈ pre →
           Cli.TagName x ≠ version
           ∧ ∀ b, b ∈ Cli.Assets x →
                  Cli.Contains (Cli.a_name b) arch = false)
      ∧ Cli.TagName r ≠ version
      ∧ (∀ b, b ∈ apre → Cli.Contains (Cli.a_name b) arch = false)
      ∧ Cli.Contains (Cli.a_name a) arch = true.
Proof.
  split.
  - induction rs as [|x rs IH]; simpl; [done|].
    destruct (String.eqb (Cli.TagName x) version) eqn:Et; [done|].
    apply String.eqb_neq in Et.
    destruct (List.find _ (Cli.Assets x)) as [a'|] eqn:Ef.
    + intros Heq. simplify_eq.
      apply find_first in Ef as (apre & apost & Has & Ha & Hpre).
      exists [], rs, apre, apost.
      split; [done|]. split; [done|].
      split; [intros ? Hb; by apply elem_of_nil in Hb|]. done.
    + intros H. destruct (IH H) as (pre & post & apre & apost & -> & Has
                                    & Hpre & Hr & Hapre & Ha).
      exists (x :: pre), post, apre, apost.
      split; [done|]. split; [done|]. split; [|done].
      intros y [-> | Hy]%elem_of_cons; [|by apply Hpre].
      split; [done|]. by apply find_nothing.
  - intros (pre & post & apre & apost & -> & Has & Hpre & Hr & Hapre & Ha).
    induction pre as [|x pre IH]; simpl.
    + apply String.eqb_neq in Hr. rewrite Hr.
      assert (List.find (λ a0, Cli.Contains (Cli.a_name a0) arch)
                (Cli.Assets r) = Some a) as ->; [|done].
      apply find_first. eauto 6.
    + destruct (Hpre x) as [Hx Hxa]; [by left|].
      apply String.eqb_neq in Hx. rewrite Hx.
      apply find_nothing in Hxa. rewrite Hxa. apply IH.
      intros y Hy. apply Hpre. by right.
Qed.

Section CliUpdate.

Variable ToLower : string → string.

Lemma ask_update_answer name u0 lines u rest o :
  Cli.is_answer u0 = false →
  Cli.ask_update ToLower name u0 lines = Cli.Answer u rest o →
  ∃ pre l,
    lines = pre ++ l :: rest
    ∧ u = (if String.eqb (ToLower l) "" then "y"%string else ToLower l)
    ∧ Cli.is_answer u = true
    ∧ o = replicate (S (length pre)) (Cli.AskUpdate name).
Proof.
  revert u0 o. induction lines as [|l ls IH]; intros u0 o Hu0; simpl;
    rewrite Hu0; [done|].
  set (u1 := if String.eqb (ToLower l) "" then "y"%string else ToLower l).
  intros H. apply and_said_answer in H as (o' & H & ->).
  destruct (Cli.is_answer u1) eqn:Hu1.
  - destruct ls; simpl in H; rewrite Hu1 in H; injection H as <- <- <-;
      exists [], l; done.
  - destruct (IH u1 o' Hu1 H) as (pre & l' & -> & Hu & Ha & ->).
    exists (l :: pre), l'. done.
Qed.

(** X21.  [update] goes on to download and install (it returns [true]
    after the new program has run, or panics in [os.Stat]'s error branch)
    only when a release is offered and the last line it has read is, in
    lower case, empty, [y] or [yes]; every line before that was asked for
    with the update prompt, and the lines after it are left for [main]. *)
Theorem cli_update_needs_yes releases version arch inst lines u rest o :
  Cli.update ToLower releases version arch inst lines = (u, rest, o) →
  u ≠ Some false →
  ∃ rs r a pre l,
    releases = Some rs
    ∧ Cli.offered rs version arch = Some (r, a)
    ∧ lines = pre ++ l :: rest
    ∧ (ToLower l = ""%string ∨ ToLower l = "y"%string
       ∨ ToLower l = "yes"%string)
    ∧ o = replicate (S (length pre)) (Cli.AskUpdate (Cli.Name r))
    ∧ u = match inst with
          | Cli.HasRun => Some true
          | Cli.GaveUp => Some false
          | Cli.StatFailed => None
          end.
Proof.
  unfold Cli.update. destruct releases as [rs|]; [|by intros [= <- <- <-]].
  destruct (Cli.offered rs version arch) as [[r a]|] eqn:Ho;
    [|by intros [= <- <- <-]].
  destruct (Cli.ask_update _ _ _ _) as [ans rest' o'|] eqn:Ha;
    [|by intros [= <- <- <-]].
  apply ask_update_answer in Ha as (pre & l & -> & Hans & _ & ->); [|done].
  destruct (negb _) eqn:Hy; [by intros [= <- <- <-]|].
  apply negb_false_iff, orb_true_iff in Hy.
  rewrite !String.eqb_eq in Hy.
  intros H Hu. exists rs, r, a, pre, l.
  assert (ToLower l = ""%string ∨ ToLower l = "y"%string
          ∨ ToLower l = "yes"%string) as Hl.
  { destruct (String.eqb (ToLower l) "") eqn:E.
    - left. by apply String.eqb_eq.
    - subst ans. tauto. }
  destruct inst; injection H as <- <- <-; done.
Qed.

End CliUpdate.

Lemma cli_update_needs_yes_witness :
  ∃ rs r a pre l,
    Some CliScenario.releases = Some rs
    ∧ Cli.offered rs "v1" "linux" = Some (r, a)
    ∧ ["maybe"; "Y"; "s"]%string = pre ++ l :: ["s"%string]
    ∧ (Cli.ascii_ToLower l = ""%string ∨ Cli.ascii_ToLower l = "y"%string
       ∨ Cli.ascii_ToLower l = "yes"%string)
    ∧ [Cli.AskUpdate "three"; Cli.AskUpdate "three"]
      = replicate (S (length pre)) (Cli.AskUpdate (Cli.Name r))
    ∧ Some true = Some true.
Proof.
  apply (cli_update_needs_yes Cli.ascii_ToLower (Some CliScenario.releases)
           "v1" "linux" Cli.HasRun ["maybe"; "Y"; "s"]%string (Some true)
           ["s"%string] [Cli.AskUpdate "three"; Cli.AskUpdate "three"]);
    [reflexivity|discriminate].
Defined.
